(** * Orbital Escape: the gravitational flight simulator of [src/App.tsx]

    A shallow embedding of the simulation core of the game: the gravity
    loop, the trajectory predictor, the per-frame flight integrator and the
    signal-driven game state machine, followed by the properties proved
    about them.

    Numbers are JavaScript numbers, that is IEEE 754 binary64 values: they
    are modelled by Rocq's primitive floats, whose operations are the
    correctly rounded binary64 ones.  Counters and indices ([attempts],
    [retryCounter], [currentLevel]) only ever hold small integers and are
    modelled by [Z] and [nat]. *)

From Stdlib Require Import Floats ZArith Lia.
From stdpp Require Import base option list gmap.

Set Warnings "-inexact-float".
#[local] Open Scope float_scope.

(** ** JavaScript number primitives used by the source *)

(** [a > b] on numbers: false as soon as one side is NaN. *)
Definition gtb (a b : float) : bool := b <? a.

(** [a || b] on numbers: [a] unless it is falsy (0, -0 or NaN). *)
Definition num_or (a b : float) : float :=
  if is_zero a || is_nan a then b else a.

(** [Math.min(a, b)]: NaN if either is NaN, -0 below +0. *)
Definition Math_min (a b : float) : float :=
  if is_nan a || is_nan b then nan
  else if a <? b then a
  else if b <? a then b
  else if is_zero a && get_sign a then a else b.

(** ** three.js [Vector3]

    The methods the game calls, as the library defines them.  The source
    mutates vectors in place but clones them wherever a value is kept, so
    vectors are modelled as values and [clone] is the identity. *)
Module THREE.

Record Vector3 : Type := mkVector3 { x : float; y : float; z : float }.

(** [new THREE.Vector3()] *)
Definition zero : Vector3 := mkVector3 0 0 0.

Definition clone (v : Vector3) : Vector3 := v.

Definition add (a b : Vector3) : Vector3 :=
  mkVector3 (x a + x b) (y a + y b) (z a + z b).

Definition sub (a b : Vector3) : Vector3 :=
  mkVector3 (x a - x b) (y a - y b) (z a - z b).

Definition multiplyScalar (v : Vector3) (s : float) : Vector3 :=
  mkVector3 (x v * s) (y v * s) (z v * s).

(** [divideScalar(s)] is [multiplyScalar(1 / s)]. *)
Definition divideScalar (v : Vector3) (s : float) : Vector3 :=
  multiplyScalar v (1 / s).

Definition length (v : Vector3) : float :=
  sqrt (x v * x v + y v * y v + z v * z v).

(** [normalize()] is [divideScalar(this.length() || 1)]. *)
Definition normalize (v : Vector3) : Vector3 :=
  divideScalar v (num_or (length v) 1).

Definition distanceToSquared (a b : Vector3) : float :=
  let dx := x a - x b in
  let dy := y a - y b in
  let dz := z a - z b in
  dx * dx + dy * dy + dz * dz.

Definition distanceTo (a b : Vector3) : float :=
  sqrt (distanceToSquared a b).

End THREE.

Abbreviation Vector3 := THREE.Vector3.

(** ** Game constants *)

Definition G : float := 8.
Definition LAUNCH_POWER_MULTIPLIER : float := 0.5.
Definition GRAVITY_SOFTENING : float := 10.
Definition MAX_TRAIL_LENGTH : nat := 100.
Definition GOAL_RADIUS : float := 2.5.

(** ** Levels *)

(** A planet of the running level.  The mesh, colour and glow of the
    source's [Planet] only feed the renderer and are left out. *)
Record Planet : Type := mkPlanet {
  position : Vector3;
  mass : float;
  radius : float
}.

(** An entry of [Level.planets]: [x], [y], [mass], [radius]. *)
Record PlanetData : Type := mkPlanetData {
  pd_x : float;
  pd_y : float;
  pd_mass : float;
  pd_radius : float
}.

(** The [{ x, y }] of [Level.spacecraft] and [Level.goal]. *)
Record Point2 : Type := mkPoint2 { p_x : float; p_y : float }.

(** A level of the catalogue.  Its name, description and hint, like the
    colour of a planet, are only displayed and are left out. *)
Record Level : Type := mkLevel {
  level_spacecraft : Point2;
  level_goal : Point2;
  level_planets : list PlanetData
}.

Definition LEVELS : list Level := [
  (* First Launch *)
  mkLevel (mkPoint2 (-20) 0) (mkPoint2 20 0) [];
  (* Gentle Curve *)
  mkLevel (mkPoint2 (-25) 0) (mkPoint2 25 0)
    [mkPlanetData 0 (-12) 400 2.5];
  (* Slingshot *)
  mkLevel (mkPoint2 (-25) (-10)) (mkPoint2 25 10)
    [mkPlanetData 0 (-5) 600 3];
  (* Twin Stars *)
  mkLevel (mkPoint2 (-30) 0) (mkPoint2 30 0)
    [mkPlanetData 0 15 400 2; mkPlanetData 0 (-15) 400 2];
  (* Orbital Assist *)
  mkLevel (mkPoint2 (-30) (-15)) (mkPoint2 30 15)
    [mkPlanetData (-10) 10 350 2; mkPlanetData 10 (-5) 400 2];
  (* The Gauntlet *)
  mkLevel (mkPoint2 (-35) 0) (mkPoint2 35 0)
    [mkPlanetData (-15) 8 300 1.5; mkPlanetData (-15) (-8) 300 1.5;
     mkPlanetData 0 12 350 1.8; mkPlanetData 0 (-12) 350 1.8;
     mkPlanetData 15 6 300 1.5; mkPlanetData 15 (-6) 300 1.5];
  (* Black Hole *)
  mkLevel (mkPoint2 (-30) 20) (mkPoint2 30 20)
    [mkPlanetData 0 0 1500 4]
].

(** [createPlanet]: the simulation part of the planet built for a level. *)
Definition createPlanet (planetData : PlanetData) : Planet :=
  mkPlanet (THREE.mkVector3 (pd_x planetData) (pd_y planetData) 0)
           (pd_mass planetData) (pd_radius planetData).

(** [createGoal(x, y)]: the position of the goal group. *)
Definition createGoal (gx gy : float) : Vector3 := THREE.mkVector3 gx gy 0.

(** ** The gravity loop

    [for (const planet of planets) { ... }] is written twice in the source,
    in [predictTrajectory] and in [animate]; the two copies differ only in
    the distance below which a planet counts as hit. *)

(** [predictTrajectory]: [distance < planet.radius]. *)
Definition predict_hit_distance (planet : Planet) : float := radius planet.

(** [animate]: [distance < planet.radius + 0.5]. *)
Definition crash_hit_distance (planet : Planet) : float := radius planet + 0.5.

(** The loop over [planets], started with [acceleration] already holding
    [acc].  [None] is the early [break] with the collision flag set. *)
Fixpoint gravity_loop (hit_distance : Planet -> float) (pos : Vector3)
    (acceleration : Vector3) (planets : list Planet) : option Vector3 :=
  match planets with
  | [] => Some acceleration
  | planet :: rest =>
      let direction := THREE.sub (THREE.clone (position planet)) pos in
      let distance := THREE.length direction in
      if distance <? hit_distance planet then None
      else
        let softDistance := distance + GRAVITY_SOFTENING in
        let force := G * mass planet / (softDistance * softDistance) in
        let direction := THREE.multiplyScalar (THREE.normalize direction) force in
        gravity_loop hit_distance pos (THREE.add acceleration direction) rest
  end.

(** ** Trajectory prediction *)

(** [const dt = 0.016 * 3] *)
Definition predict_dt : float := 0.016 * 3.

(** [goal && pos.distanceTo(goal.position) < GOAL_RADIUS * 1.5] *)
Definition predict_goal_reached (goal : option Vector3) (pos : Vector3) : bool :=
  match goal with
  | Some g => THREE.distanceTo pos g <? GOAL_RADIUS * 1.5
  | None => false
  end.

(** [Math.abs(pos.x) > 60 || Math.abs(pos.y) > 50] *)
Definition predict_out_of_bounds (pos : Vector3) : bool :=
  gtb (abs (THREE.x pos)) 60 || gtb (abs (THREE.y pos)) 50.

(** The [for (let i = 0; i < steps; i++)] loop of [predictTrajectory], with
    [steps] iterations left; [planets] and [goal] are the scene variables
    the function closes over. *)
Fixpoint predict_loop (planets : list Planet) (goal : option Vector3)
    (steps : nat) (pos vel : Vector3) (positions : list Vector3)
    : list Vector3 :=
  match steps with
  | O => positions
  | S steps' =>
      match gravity_loop predict_hit_distance pos THREE.zero planets with
      | None => positions
      | Some acceleration =>
          if predict_goal_reached goal pos then positions
          else
            let vel := THREE.add vel (THREE.multiplyScalar acceleration predict_dt) in
            let pos := THREE.add pos (THREE.multiplyScalar (THREE.clone vel) predict_dt) in
            let positions := positions ++ [THREE.clone pos] in
            if predict_out_of_bounds pos then positions
            else predict_loop planets goal steps' pos vel positions
      end
  end.

Definition predictTrajectory (planets : list Planet) (goal : option Vector3)
    (startPos velocity : Vector3) (steps : nat) : list Vector3 :=
  predict_loop planets goal steps (THREE.clone startPos) (THREE.clone velocity) [].

(** [updateTrajectoryLine]: the prediction that is drawn, 100 steps. *)
Definition updateTrajectoryLine (planets : list Planet) (goal : option Vector3)
    (startPos velocity : Vector3) : list Vector3 :=
  predictTrajectory planets goal startPos velocity 100.

(** ** Game state

    The signals of [App] and the scene variables of [onMount] that the
    simulation reads or writes.  Meshes, lines, the camera, the animation
    clock and the hint toggle only feed the renderer and are left out. *)

Inductive GamePhase : Type := aiming | flying | success | failed.

#[global] Instance GamePhase_eq_dec : EqDecision GamePhase.
Proof. solve_decision. Defined.

Record World : Type := mkWorld {
  (* signals *)
  currentLevel : nat;
  gameState : GamePhase;
  attempts : Z;
  showMenu : bool;
  showLevelSelect : bool;
  isDragging : bool;
  launchPower : float;
  launchAngle : float;
  completedLevels : gset nat;
  retryCounter : Z;
  (* scene variables; [spacecraft] and [goal] hold the group's position *)
  spacecraft : option Vector3;
  spacecraftVelocity : Vector3;
  planets : list Planet;
  goal : option Vector3;
  trailPositions : list Vector3;
  (* whether the last run of the level effect read [showLevelSelect] *)
  effectTracksLevelSelect : bool
}.

(** State right after [onMount]: the level effect has run once with the
    menu showing, so it read [showMenu] and stopped there. *)
Definition initialWorld : World := {|
  currentLevel := 0;
  gameState := aiming;
  attempts := 0;
  showMenu := true;
  showLevelSelect := false;
  isDragging := false;
  launchPower := 0;
  launchAngle := 0;
  completedLevels := ∅;
  retryCounter := 0;
  spacecraft := None;
  spacecraftVelocity := THREE.zero;
  planets := [];
  goal := None;
  trailPositions := [];
  effectTracksLevelSelect := false
|}.

(** *** Plain writes

    Signal writes nobody in the model observes, and assignments to scene
    variables. *)

Definition setGameState (v : GamePhase) (w : World) : World :=
  mkWorld (currentLevel w) v (attempts w) (showMenu w) (showLevelSelect w)
    (isDragging w) (launchPower w) (launchAngle w) (completedLevels w)
    (retryCounter w) (spacecraft w) (spacecraftVelocity w) (planets w)
    (goal w) (trailPositions w) (effectTracksLevelSelect w).

Definition setAttempts (v : Z) (w : World) : World :=
  mkWorld (currentLevel w) (gameState w) v (showMenu w) (showLevelSelect w)
    (isDragging w) (launchPower w) (launchAngle w) (completedLevels w)
    (retryCounter w) (spacecraft w) (spacecraftVelocity w) (planets w)
    (goal w) (trailPositions w) (effectTracksLevelSelect w).

Definition setIsDragging (v : bool) (w : World) : World :=
  mkWorld (currentLevel w) (gameState w) (attempts w) (showMenu w)
    (showLevelSelect w) v (launchPower w) (launchAngle w) (completedLevels w)
    (retryCounter w) (spacecraft w) (spacecraftVelocity w) (planets w)
    (goal w) (trailPositions w) (effectTracksLevelSelect w).

Definition setLaunchPower (v : float) (w : World) : World :=
  mkWorld (currentLevel w) (gameState w) (attempts w) (showMenu w)
    (showLevelSelect w) (isDragging w) v (launchAngle w) (completedLevels w)
    (retryCounter w) (spacecraft w) (spacecraftVelocity w) (planets w)
    (goal w) (trailPositions w) (effectTracksLevelSelect w).

Definition setLaunchAngle (v : float) (w : World) : World :=
  mkWorld (currentLevel w) (gameState w) (attempts w) (showMenu w)
    (showLevelSelect w) (isDragging w) (launchPower w) v (completedLevels w)
    (retryCounter w) (spacecraft w) (spacecraftVelocity w) (planets w)
    (goal w) (trailPositions w) (effectTracksLevelSelect w).

Definition setCompletedLevels (f : gset nat -> gset nat) (w : World) : World :=
  mkWorld (currentLevel w) (gameState w) (attempts w) (showMenu w)
    (showLevelSelect w) (isDragging w) (launchPower w) (launchAngle w)
    (f (completedLevels w))
    (retryCounter w) (spacecraft w) (spacecraftVelocity w) (planets w)
    (goal w) (trailPositions w) (effectTracksLevelSelect w).

Definition write_spacecraft (v : option Vector3) (w : World) : World :=
  mkWorld (currentLevel w) (gameState w) (attempts w) (showMenu w)
    (showLevelSelect w) (isDragging w) (launchPower w) (launchAngle w)
    (completedLevels w) (retryCounter w) v (spacecraftVelocity w) (planets w)
    (goal w) (trailPositions w) (effectTracksLevelSelect w).

Definition write_spacecraftVelocity (v : Vector3) (w : World) : World :=
  mkWorld (currentLevel w) (gameState w) (attempts w) (showMenu w)
    (showLevelSelect w) (isDragging w) (launchPower w) (launchAngle w)
    (completedLevels w) (retryCounter w) (spacecraft w) v (planets w)
    (goal w) (trailPositions w) (effectTracksLevelSelect w).

Definition write_planets (v : list Planet) (w : World) : World :=
  mkWorld (currentLevel w) (gameState w) (attempts w) (showMenu w)
    (showLevelSelect w) (isDragging w) (launchPower w) (launchAngle w)
    (completedLevels w) (retryCounter w) (spacecraft w) (spacecraftVelocity w)
    v (goal w) (trailPositions w) (effectTracksLevelSelect w).

Definition write_goal (v : option Vector3) (w : World) : World :=
  mkWorld (currentLevel w) (gameState w) (attempts w) (showMenu w)
    (showLevelSelect w) (isDragging w) (launchPower w) (launchAngle w)
    (completedLevels w) (retryCounter w) (spacecraft w) (spacecraftVelocity w)
    (planets w) v (trailPositions w) (effectTracksLevelSelect w).

Definition write_trailPositions (v : list Vector3) (w : World) : World :=
  mkWorld (currentLevel w) (gameState w) (attempts w) (showMenu w)
    (showLevelSelect w) (isDragging w) (launchPower w) (launchAngle w)
    (completedLevels w) (retryCounter w) (spacecraft w) (spacecraftVelocity w)
    (planets w) (goal w) v (effectTracksLevelSelect w).

(** The bare stores behind the four signals the level effect reads. *)

Definition write_currentLevel (v : nat) (w : World) : World :=
  mkWorld v (gameState w) (attempts w) (showMenu w) (showLevelSelect w)
    (isDragging w) (launchPower w) (launchAngle w) (completedLevels w)
    (retryCounter w) (spacecraft w) (spacecraftVelocity w) (planets w)
    (goal w) (trailPositions w) (effectTracksLevelSelect w).

Definition write_showMenu (v : bool) (w : World) : World :=
  mkWorld (currentLevel w) (gameState w) (attempts w) v (showLevelSelect w)
    (isDragging w) (launchPower w) (launchAngle w) (completedLevels w)
    (retryCounter w) (spacecraft w) (spacecraftVelocity w) (planets w)
    (goal w) (trailPositions w) (effectTracksLevelSelect w).

Definition write_showLevelSelect (v : bool) (w : World) : World :=
  mkWorld (currentLevel w) (gameState w) (attempts w) (showMenu w) v
    (isDragging w) (launchPower w) (launchAngle w) (completedLevels w)
    (retryCounter w) (spacecraft w) (spacecraftVelocity w) (planets w)
    (goal w) (trailPositions w) (effectTracksLevelSelect w).

Definition write_retryCounter (v : Z) (w : World) : World :=
  mkWorld (currentLevel w) (gameState w) (attempts w) (showMenu w)
    (showLevelSelect w) (isDragging w) (launchPower w) (launchAngle w)
    (completedLevels w) v (spacecraft w) (spacecraftVelocity w) (planets w)
    (goal w) (trailPositions w) (effectTracksLevelSelect w).

Definition write_effectTracksLevelSelect (v : bool) (w : World) : World :=
  mkWorld (currentLevel w) (gameState w) (attempts w) (showMenu w)
    (showLevelSelect w) (isDragging w) (launchPower w) (launchAngle w)
    (completedLevels w) (retryCounter w) (spacecraft w) (spacecraftVelocity w)
    (planets w) (goal w) (trailPositions w) v.

(** ** Level initialisation *)

(** [initLevel(levelIndex)].  An index outside [LEVELS] makes the source
    raise a TypeError on [level.spacecraft]; the model leaves the world as
    it is there, and [reachable_currentLevel] shows the case never arises. *)
Definition initLevel (levelIndex : nat) (w : World) : World :=
  match LEVELS !! levelIndex with
  | None => w
  | Some level =>
      let w := write_planets [] w in
      let w := write_spacecraft
                 (Some (THREE.mkVector3 (p_x (level_spacecraft level))
                                        (p_y (level_spacecraft level)) 0)) w in
      let w := write_planets (planets w ++ map createPlanet (level_planets level)) w in
      let w := write_goal
                 (Some (createGoal (p_x (level_goal level)) (p_y (level_goal level)))) w in
      let w := write_trailPositions [] w in
      let w := write_spacecraftVelocity (THREE.mkVector3 0 0 0) w in
      let w := setGameState aiming w in
      setAttempts (attempts w + 1) w
  end.

(** ** The level effect and the signals it tracks

    [createEffect] re-runs its body, synchronously, whenever a signal read
    by its previous run is written with a different value; writing the
    value a signal already holds notifies nobody.  The body always reads
    [currentLevel], [retryCounter] and [showMenu]; [showLevelSelect] is
    read only when [!showMenu()] holds, since [&&] short-circuits. *)
Definition levelEffect (w : World) : World :=
  let level := currentLevel w in
  let w := write_effectTracksLevelSelect (negb (showMenu w)) w in
  if negb (showMenu w) && negb (showLevelSelect w) then initLevel level w
  else w.

Definition setCurrentLevel (v : nat) (w : World) : World :=
  if decide (currentLevel w = v) then w
  else levelEffect (write_currentLevel v w).

Definition setRetryCounter (v : Z) (w : World) : World :=
  if decide (retryCounter w = v) then w
  else levelEffect (write_retryCounter v w).

Definition setShowMenu (v : bool) (w : World) : World :=
  if decide (showMenu w = v) then w
  else levelEffect (write_showMenu v w).

Definition setShowLevelSelect (v : bool) (w : World) : World :=
  if decide (showLevelSelect w = v) then w
  else
    let w' := write_showLevelSelect v w in
    if effectTracksLevelSelect w then levelEffect w' else w'.

(** ** Menu and level actions of [App] *)

Definition startGame (w : World) : World :=
  let w := setShowMenu false w in
  let w := setCurrentLevel 0 w in
  setAttempts 0 w.

Definition nextLevel (w : World) : World :=
  if (currentLevel w <? length LEVELS - 1)%nat then
    setCurrentLevel (currentLevel w + 1) w
  else
    let w := setGameState aiming w in
    setShowMenu true w.

Definition retryLevel (w : World) : World :=
  setRetryCounter (retryCounter w + 1)%Z w.

Definition openLevelSelect (w : World) : World :=
  let w := setShowLevelSelect true w in
  setShowMenu false w.

Definition selectLevel (index : nat) (w : World) : World :=
  let w := setShowLevelSelect false w in
  let w := setCurrentLevel index w in
  setAttempts 0 w.

(** The "Back to Menu" button of the level grid. *)
Definition backToMenu (w : World) : World :=
  let w := setShowLevelSelect false w in
  setShowMenu true w.

(** The "Menu" button of the game view. *)
Definition openMenu (w : World) : World := setShowMenu true w.

(** ** Pointer handlers *)

(** [Math.cos], [Math.sin] and [Math.atan2] are implementation-approximated
    in ECMAScript: what they return is left open. *)
Class MathLib : Type := {
  Math_cos : float -> float;
  Math_sin : float -> float;
  Math_atan2 : float -> float -> float
}.

Section Handlers.
Context `{MathLib}.

Definition onMouseDown (w : World) : World :=
  if showMenu w || showLevelSelect w || negb (bool_decide (gameState w = aiming))
  then w
  else setIsDragging true w.

(** The launch velocity for a given aim, as [onMouseMove] previews it and
    [onMouseUp] sets it. *)
Definition launchVelocity (angle power : float) : Vector3 :=
  THREE.mkVector3 (Math_cos angle * power * LAUNCH_POWER_MULTIPLIER)
                  (Math_sin angle * power * LAUNCH_POWER_MULTIPLIER)
                  0.

(** [onMouseMove], given the pointer's world position
    ([getMouseWorldPos(event)]).  Without a spacecraft the source raises a
    TypeError; dragging only starts once a level is initialised. *)
Definition onMouseMove (worldPos : Vector3) (w : World) : World :=
  if negb (isDragging w) || negb (bool_decide (gameState w = aiming)) then w
  else
    match spacecraft w with
    | None => w
    | Some craft =>
        let dx := THREE.x craft - THREE.x worldPos in
        let dy := THREE.y craft - THREE.y worldPos in
        let power := Math_min (sqrt (dx * dx + dy * dy)) 30 in
        let angle := Math_atan2 dy dx in
        let w := setLaunchPower power w in
        setLaunchAngle angle w
    end.

(** The trajectory [onMouseMove] hands to the renderer. *)
Definition previewTrajectory (w : World) : option (list Vector3) :=
  match spacecraft w with
  | None => None
  | Some craft =>
      Some (updateTrajectoryLine (planets w) (goal w) (THREE.clone craft)
              (launchVelocity (launchAngle w) (launchPower w)))
  end.

Definition onMouseUp (w : World) : World :=
  if negb (isDragging w) || negb (bool_decide (gameState w = aiming)) then w
  else
    let w := setIsDragging false w in
    let w :=
      if gtb (launchPower w) 2 then
        let w := write_spacecraftVelocity
                   (launchVelocity (launchAngle w) (launchPower w)) w in
        setGameState flying w
      else w in
    setLaunchPower 0 w.

End Handlers.

(** ** The flight integrator: the physics block of [animate] *)

(** [const dt = 0.016] *)
Definition flight_dt : float := 0.016.

(** [trailPositions.push(p); if (trailPositions.length > MAX_TRAIL_LENGTH)
    trailPositions.shift()] *)
Definition push_trail (trail : list Vector3) (p : Vector3) : list Vector3 :=
  let trail := trail ++ [p] in
  if (MAX_TRAIL_LENGTH <? length trail)%nat then tail trail else trail.

(** [goal && spacecraft.position.distanceTo(goal.position) < GOAL_RADIUS * 1.2] *)
Definition goal_reached (goal : option Vector3) (pos : Vector3) : bool :=
  match goal with
  | Some g => THREE.distanceTo pos g <? GOAL_RADIUS * 1.2
  | None => false
  end.

(** [Math.abs(spacecraft.position.x) > 55 || Math.abs(spacecraft.position.y) > 45] *)
Definition out_of_bounds (pos : Vector3) : bool :=
  gtb (abs (THREE.x pos)) 55 || gtb (abs (THREE.y pos)) 45.

(** The [else] branch of [if (crashed)]: velocity, position and trail. *)
Definition integrate (acceleration pos : Vector3) (w : World) : World :=
  let vel := THREE.add (spacecraftVelocity w)
                       (THREE.multiplyScalar acceleration flight_dt) in
  let w := write_spacecraftVelocity vel w in
  let pos := THREE.add pos (THREE.multiplyScalar (THREE.clone vel) flight_dt) in
  let w := write_spacecraft (Some pos) w in
  write_trailPositions (push_trail (trailPositions w) (THREE.clone pos)) w.

(** The goal check, with the [setGameState] calls it makes. *)
Definition check_goal (w : World) : World * list GamePhase :=
  match spacecraft w with
  | Some pos =>
      if goal_reached (goal w) pos then
        let w := setGameState success w in
        (setCompletedLevels (fun prev => {[ currentLevel w ]} ∪ prev) w, [success])
      else (w, [])
  | None => (w, [])
  end.

(** The bounds check, with the [setGameState] calls it makes. *)
Definition check_bounds (w : World) : World * list GamePhase :=
  match spacecraft w with
  | Some pos =>
      if out_of_bounds pos then (setGameState failed w, [failed]) else (w, [])
  | None => (w, [])
  end.

(** One frame of [animate]: the resulting world and, in order, the values
    passed to [setGameState] during the frame. *)
Definition animate_trace (w : World) : World * list GamePhase :=
  match gameState w, spacecraft w with
  | flying, Some pos =>
      match gravity_loop crash_hit_distance pos THREE.zero (planets w) with
      | None => (setGameState failed w, [failed])
      | Some acceleration =>
          let w := integrate acceleration pos w in
          let '(w, goal_writes) := check_goal w in
          let '(w, bounds_writes) := check_bounds w in
          (w, goal_writes ++ bounds_writes)
      end
  | _, _ => (w, [])
  end.

Definition animate (w : World) : World := fst (animate_trace w).

(** ** Events and reachable worlds *)

Inductive Event : Type :=
| MouseDown
| MouseMove (worldPos : Vector3)
| MouseUp
| Frame
| StartGame
| NextLevel
| RetryLevel
| OpenLevelSelect
| SelectLevel (index : nat)
| BackToMenu
| OpenMenu.

Section Machine.
Context `{MathLib}.

Definition handle (e : Event) (w : World) : World :=
  match e with
  | MouseDown => onMouseDown w
  | MouseMove worldPos => onMouseMove worldPos w
  | MouseUp => onMouseUp w
  | Frame => animate w
  | StartGame => startGame w
  | NextLevel => nextLevel w
  | RetryLevel => retryLevel w
  | OpenLevelSelect => openLevelSelect w
  | SelectLevel index => selectLevel index w
  | BackToMenu => backToMenu w
  | OpenMenu => openMenu w
  end.

(** The level grid offers exactly the indices of [LEVELS]. *)
Definition enabled (e : Event) : Prop :=
  match e with
  | SelectLevel index => (index < length LEVELS)%nat
  | _ => True
  end.

(** Events are handled one at a time, each to completion. *)
Definition run (events : list Event) (w : World) : World :=
  foldl (fun w e => handle e w) w events.

Inductive reachable : World -> Prop :=
| reachable_init : reachable initialWorld
| reachable_step e w : reachable w -> enabled e -> reachable (handle e w).

End Machine.


(** * Specification-side definitions *)

(** ** The gravity field *)

(** The gravity field in the words of its specification: one contribution
    per body, of magnitude [8 * mass / (r + 10)^2] along the normalised
    displacement from the point to the body, [r] being the distance. *)
Definition body_contribution (point : Vector3) (body : Planet) : Vector3 :=
  let d := THREE.sub (position body) point in
  let r := THREE.length d in
  THREE.multiplyScalar (THREE.normalize d) (8 * mass body / ((r + 10) * (r + 10))).

(** The contributions added up from the zero vector, first body first. *)
Definition accelerationAt (point : Vector3) (bodies : list Planet) : Vector3 :=
  foldl (fun a body => THREE.add a (body_contribution point body)) THREE.zero bodies.

(** A body counts as hit when the point is closer to it than [hit_distance]. *)
Definition hits (hit_distance : Planet -> float) (point : Vector3)
    (body : Planet) : bool :=
  THREE.length (THREE.sub (position body) point) <? hit_distance body.

(** ** Flights *)

(** The world after [n] more frames. *)
Fixpoint frames (n : nat) (w : World) : World :=
  match n with
  | O => w
  | S n => frames n (animate w)
  end.

(** The craft's position after each of the next [n] frames, oldest first. *)
Fixpoint flight_path (n : nat) (w : World) : list Vector3 :=
  match n with
  | O => []
  | S n =>
      match spacecraft (animate w) with
      | Some p => p :: flight_path n (animate w)
      | None => flight_path n (animate w)
      end
  end.

(** ** Runs *)

(** The Run as [initLevel] builds it for [level]: craft at the start, at
    rest, no trail, the planets and the goal of the level, phase aiming. *)
Definition fresh_run (level : Level) (w : World) : Prop :=
  spacecraft w = Some (THREE.mkVector3 (p_x (level_spacecraft level))
                                       (p_y (level_spacecraft level)) 0) /\
  spacecraftVelocity w = THREE.mkVector3 0 0 0 /\
  trailPositions w = [] /\
  planets w = map createPlanet (level_planets level) /\
  goal w = Some (createGoal (p_x (level_goal level)) (p_y (level_goal level))) /\
  gameState w = aiming.

(** The aim signals of [w'] are those of [w]. *)
Definition same_aim (w w' : World) : Prop :=
  isDragging w' = isDragging w /\
  launchPower w' = launchPower w /\
  launchAngle w' = launchAngle w.

(** The goal in the scene, if any, is the goal of a catalogue level. *)
Definition goal_from_catalogue (w : World) : Prop :=
  forall g, goal w = Some g ->
  exists level, level ∈ LEVELS /\
    g = createGoal (p_x (level_goal level)) (p_y (level_goal level)).

(** ** The invariant of reachable worlds *)

Record invariant (w : World) : Prop := mkInvariant {
  (** the current level is a level of the catalogue *)
  inv_level : (currentLevel w < length LEVELS)%nat;
  (** the level effect tracks [showLevelSelect] exactly when the menu is closed *)
  inv_tracks : effectTracksLevelSelect w = negb (showMenu w);
  inv_goal : goal_from_catalogue w;
  inv_trail : (length (trailPositions w) ≤ 100)%nat;
  (** a drag is only ever in progress while aiming *)
  inv_drag : isDragging w = true -> gameState w = aiming;
  (** while aiming, the Run is freshly initialised, or a menu is open and
      no drag is in progress *)
  inv_aiming :
    gameState w = aiming ->
    (exists level, level ∈ LEVELS /\ fresh_run level w) \/
    ((showMenu w || showLevelSelect w) = true /\ isDragging w = false);
  (** past aiming, the scene exists *)
  inv_scene : gameState w <> aiming -> spacecraft w <> None /\ goal w <> None
}.

(** The phase after a write of the state machine: kept, or reset to
    [aiming] by a level initialisation. *)
Definition phase_kept (w w' : World) : Prop :=
  gameState w' = gameState w \/ gameState w' = aiming.

(** ** Frames by priority *)

(** Velocity and position after a frame of a craft at [pos] that hits no
    planet. *)
Definition next_velocity (w : World) (pos : Vector3) : Vector3 :=
  THREE.add (spacecraftVelocity w)
            (THREE.multiplyScalar (accelerationAt pos (planets w)) 0.016).

Definition next_position (w : World) (pos : Vector3) : Vector3 :=
  THREE.add pos (THREE.multiplyScalar (next_velocity w pos) 0.016).

(** The phase a frame of a flying craft at [pos] ends in when collision,
    goal and bounds are tried in this order and the first that applies
    decides. *)
Definition frame_outcome (w : World) (pos : Vector3) : GamePhase :=
  if existsb (hits crash_hit_distance pos) (planets w) then failed
  else if goal_reached (goal w) (next_position w pos) then success
  else if out_of_bounds (next_position w pos) then failed
  else flying.

(** ** A stand-in for the trigonometric functions

    Exact where ECMAScript fixes the result, on the horizontal axis only:
    [atan2(±0, x) = ±0] for [x > 0], [cos(±0) = 1], [sin(±0) = ±0]; NaN
    elsewhere.  It serves the worked examples, which aim along that axis. *)
Definition axisMath : MathLib := {|
  Math_cos a := if is_zero a then 1 else nan;
  Math_sin a := if is_zero a then a else nan;
  Math_atan2 y x := if is_zero y && (0 <? x) then y else nan
|}.

(** ** Worked examples on "First Launch" *)

(** The game started and a drag pulled 20 to the left of the craft: power
    20, angle 0. *)
Definition aimed_world : World :=
  run (H := axisMath)
    [StartGame; MouseDown; MouseMove (THREE.mkVector3 (-40) 0 0)] initialWorld.

(** The same with a pull of 1.5 only. *)
Definition timid_world : World :=
  run (H := axisMath)
    [StartGame; MouseDown; MouseMove (THREE.mkVector3 (-21.5) 0 0)] initialWorld.

(** A full pull along the axis, released: velocity [(15, 0, 0)] from
    [(-20, 0)], towards the goal at [(20, 0)]. *)
Definition straight_shot : list Event :=
  [StartGame; MouseDown; MouseMove (THREE.mkVector3 (-50) 0 0); MouseUp].

Definition launched_world : World := run (H := axisMath) straight_shot initialWorld.

(** 154 frames later the craft is at x = 16.96, one frame short of the
    goal's capture disc. *)
Definition approach_world : World := frames 154 launched_world.

(** A craft in flight 2.8 away from the planet of "Gentle Curve", whose
    radius is 2.5: outside the planet, inside the 0.5 margin. *)
Definition grazing_world : World :=
  write_spacecraftVelocity (THREE.mkVector3 3 1 0)
    (write_trailPositions [THREE.mkVector3 0.5 (-9) 0]
       (write_spacecraft (Some (THREE.mkVector3 0 (-9.2) 0))
          (setGameState flying (initLevel 1 initialWorld)))).

(** ** Magnitudes of binary64 values

    Used to show that a craft close to a goal of the catalogue is inside
    the play area: a finite binary64 value with mantissa [m] and exponent
    [e] has magnitude in [[2^(dg m + e - 1), 2^(dg m + e))]. *)

Section MagnitudeDefinitions.
#[local] Open Scope Z_scope.

(** Number of binary digits of a mantissa. *)
Definition dg (m : positive) : Z := Zpos (digits2_pos m).

(** The magnitude is at least [2^k]. *)
Definition mag_ge (k : Z) (f : spec_float) : Prop :=
  match f with
  | S754_infinity _ => True
  | S754_finite _ m e => k + 1 <= dg m + e
  | _ => False
  end.

(** Zero or positive. *)
Definition nonneg (f : spec_float) : Prop :=
  match f with
  | S754_zero false | S754_infinity false | S754_finite false _ _ => True
  | _ => False
  end.

(** Positive and at least [2^k]. *)
Definition big (k : Z) (f : spec_float) : Prop := mag_ge k f /\ nonneg f.

(** NaN, or else [P]. *)
Definition nan_or (P : spec_float -> Prop) (f : spec_float) : Prop :=
  f = S754_nan \/ P f.

End MagnitudeDefinitions.

(** ** Further invariants of reachable worlds *)

(** NaN, or between 0 and 30. *)
Definition power_in_range (p : float) : Prop :=
  is_nan p = true \/ ((0 <=? p) = true /\ (p <=? 30) = true).

(** The scene holds the planets and the goal of [level]. *)
Definition scene_of (level : Level) (w : World) : Prop :=
  planets w = map createPlanet (level_planets level) /\
  goal w = Some (createGoal (p_x (level_goal level)) (p_y (level_goal level))).

(** The craft's start position in [level]. *)
Definition level_start (level : Level) : Vector3 :=
  THREE.mkVector3 (p_x (level_spacecraft level)) (p_y (level_spacecraft level)) 0.

Record play_invariant (w : World) : Prop := mkPlayInvariant {
  (** every completed index is a level of the catalogue *)
  play_completed :
    forall i, i ∈ completedLevels w -> (i < length LEVELS)%nat;
  (** without a drag the power reads 0 *)
  play_power_idle : isDragging w = false -> launchPower w = 0;
  play_power_range : power_in_range (launchPower w);
  (** with the game view open the scene is the one of the current level,
      and while aiming the Run is its fresh run *)
  play_synced :
    showMenu w = false -> showLevelSelect w = false ->
    exists level, LEVELS !! currentLevel w = Some level /\ scene_of level w /\
      (gameState w = aiming -> fresh_run level w);
  (** a flying craft is inside the play area and outside the goal disc *)
  play_inside :
    gameState w = flying ->
    exists pos, spacecraft w = Some pos /\
      out_of_bounds pos = false /\ goal_reached (goal w) pos = false;
  play_attempts : (0 <= attempts w)%Z;
  (** in the game view, a level shown as complete is recorded as complete *)
  play_success :
    showMenu w = false -> showLevelSelect w = false -> gameState w = success ->
    currentLevel w ∈ completedLevels w
}.

(** ** The preview against the flight *)

(** A position the predictor steps on from: no planet is hit there and the
    goal is not yet near. *)
Definition predict_passes (planets : list Planet) (goal : option Vector3)
    (pos : Vector3) : Prop :=
  is_Some (gravity_loop predict_hit_distance pos THREE.zero planets) /\
  predict_goal_reached goal pos = false.

(** ** The softened distance

    [distance + GRAVITY_SOFTENING] of the gravity loop, for the craft at
    [pos] and one planet. *)
Definition softDistance (pos : Vector3) (planet : Planet) : float :=
  THREE.length (THREE.sub (THREE.clone (position planet)) pos) + GRAVITY_SOFTENING.

(** ** Line buffers

    The position attribute of a line is a [Float32Array]: a number stored
    in it is rounded to binary32 and read back as a binary64 value
    ([Math.fround]), and a write past the end is ignored. *)

(** Rounds a finite value to precision [prec] and exponent bound [emax],
    to nearest, ties to even. *)
Definition round_to (prec emax : Z) (f : spec_float) : spec_float :=
  match f with
  | S754_finite s m e => binary_normalize prec emax (cond_Zopp s (Zpos m)) e s
  | _ => f
  end.

Definition Math_fround (v : float) : float :=
  SF2Prim (round_to 53 1024 (round_to 24 128 (Prim2SF v))).

(** [array[i] = v] *)
Definition Float32Array_set (i : nat) (v : float) (array : list float)
    : list float :=
  <[i := Math_fround v]> array.

(** [array[i * 3] = vx; array[i * 3 + 1] = vy; array[i * 3 + 2] = 0] *)
Definition set_vertex (i : nat) (vx vy : float) (array : list float)
    : list float :=
  let array := Float32Array_set (i * 3) vx array in
  let array := Float32Array_set (i * 3 + 1) vy array in
  Float32Array_set (i * 3 + 2) 0 array.

(** The body of the [for] loop of [updateTrajectoryLine]: vertex [i] is
    the predicted position [i], or zero past the last one. *)
Definition fill_trajectory_vertex (positions : list Vector3)
    (positionArray : list float) (i : nat) : list float :=
  match positions !! i with
  | Some p => set_vertex i (THREE.x p) (THREE.y p) positionArray
  | None => set_vertex i 0 0 positionArray
  end.

(** [for (let i = 0; i < 100; i++)] *)
Definition fill_trajectory (positions : list Vector3)
    (positionArray : list float) : list float :=
  foldl (fill_trajectory_vertex positions) positionArray (seq 0 100).

(** [updateTrajectoryLine] with the buffer it fills: the new content of
    [positionArray] and the count passed to [setDrawRange(0, count)]. *)
Definition updateTrajectoryLine_buffer (planets : list Planet)
    (goal : option Vector3) (startPos velocity : Vector3)
    (positionArray : list float) : list float * nat :=
  let positions := predictTrajectory planets goal startPos velocity 100 in
  (fill_trajectory positions positionArray, length positions).

(** The body of the trail loop of [animate]: vertex [i] is written only
    when the trail has a position [i]. *)
Definition fill_trail_vertex (trailPositions : list Vector3)
    (trailArray : list float) (i : nat) : list float :=
  match trailPositions !! i with
  | Some p => set_vertex i (THREE.x p) (THREE.y p) trailArray
  | None => trailArray
  end.

(** [for (let i = 0; i < MAX_TRAIL_LENGTH; i++)], and the count passed to
    [setDrawRange(0, count)]. *)
Definition fill_trail (trailPositions : list Vector3) (trailArray : list float)
    : list float * nat :=
  (foldl (fill_trail_vertex trailPositions) trailArray (seq 0 MAX_TRAIL_LENGTH),
   length trailPositions).

(** ** Further worked examples *)

(** The straight shot, 155 frames on: the craft is in the goal. *)
Definition captured_world : World := frames 155 launched_world.

(** "Black Hole", the last level, picked from the level grid. *)
Definition last_level_world : World :=
  run (H := axisMath) [OpenLevelSelect; SelectLevel 6] initialWorld.

(** The preview of a launch at [(10, 0, 0)] on "First Launch". *)
Definition first_preview : list Vector3 :=
  updateTrajectoryLine [] (Some (THREE.mkVector3 20 0 0))
    (THREE.mkVector3 (-20) 0 0) (THREE.mkVector3 10 0 0).

(** * Properties *)

(** ** Binary64 magnitudes

    Lower bounds on the results of the binary64 operations, read off the
    [digits + exponent] of their specification in [SpecFloat]. *)

Section BinaryMagnitudes.
#[local] Open Scope Z_scope.

#[local] Abbreviation fexp64 := (fexp prec emax).

(** *** Digits of a mantissa *)

Lemma dg_pos m : 1 <= dg m.
Proof. unfold dg. lia. Qed.

Lemma dg_bounds m : 2 ^ (dg m - 1) <= Zpos m < 2 ^ dg m.
Proof.
  unfold dg. induction m as [m IH|m IH|]; simpl digits2_pos.
  - rewrite Pos2Z.inj_succ.
    replace (Z.succ (Zpos (digits2_pos m)) - 1) with (Zpos (digits2_pos m) - 1 + 1) by lia.
    rewrite Z.pow_succ_r by lia. rewrite Z.pow_add_r by lia.
    change (2 ^ 1) with 2. lia.
  - rewrite Pos2Z.inj_succ.
    replace (Z.succ (Zpos (digits2_pos m)) - 1) with (Zpos (digits2_pos m) - 1 + 1) by lia.
    rewrite Z.pow_succ_r by lia. rewrite Z.pow_add_r by lia.
    change (2 ^ 1) with 2. lia.
  - simpl. lia.
Qed.

Lemma dg_lower m k : 0 <= k -> 2 ^ k <= Zpos m -> k + 1 <= dg m.
Proof.
  intros Hk Hm. destruct (dg_bounds m) as [_ Hlt].
  destruct (Z_lt_le_dec k (dg m)) as [?|Hle]; [lia|].
  pose proof (Z.pow_le_mono_r 2 (dg m) k ltac:(lia) Hle). lia.
Qed.

Lemma dg_upper m k : 0 <= k -> Zpos m < 2 ^ k -> dg m <= k.
Proof.
  intros Hk Hm. destruct (dg_bounds m) as [Hle _].
  destruct (Z_lt_le_dec k (dg m)) as [Hlt|?]; [|lia].
  pose proof (dg_pos m).
  pose proof (Z.pow_le_mono_r 2 k (dg m - 1) ltac:(lia) ltac:(lia)). lia.
Qed.

Lemma dg_mono m n : Zpos m <= Zpos n -> dg m <= dg n.
Proof.
  intros H. destruct (dg_bounds m) as [Hm _]. pose proof (dg_pos m).
  pose proof (dg_lower n (dg m - 1) ltac:(lia) ltac:(lia)). lia.
Qed.

(** Shifting a mantissa left. *)
Lemma iter_xO_val m d : Zpos (Pos.iter xO m d) = Zpos m * 2 ^ Zpos d.
Proof.
  revert m. induction d as [|d IH] using Pos.peano_ind; intros m.
  - simpl. lia.
  - rewrite Pos.iter_succ, Pos2Z.inj_xO, IH, Pos2Z.inj_succ, Z.pow_succ_r by lia. lia.
Qed.

Lemma shl_align_val m e ez :
  ez <= e -> Zpos (fst (shl_align m e ez)) = Zpos m * 2 ^ (e - ez).
Proof.
  intros Hle. unfold shl_align.
  destruct (ez - e) as [|d|d] eqn:Hd; simpl.
  - replace (e - ez) with 0 by lia. simpl. lia.
  - lia.
  - rewrite iter_xO_val. f_equal. f_equal. lia.
Qed.

Lemma dg_mul_pow2 m n k :
  0 <= k -> Zpos n = Zpos m * 2 ^ k -> dg n = dg m + k.
Proof.
  intros Hk Hn. destruct (dg_bounds m) as [Hlo Hhi]. pose proof (dg_pos m).
  assert (2 ^ (dg m - 1 + k) <= Zpos n).
  { rewrite Z.pow_add_r by lia. rewrite Hn. apply Z.mul_le_mono_nonneg_r; lia. }
  assert (Zpos n < 2 ^ (dg m + k)).
  { rewrite Z.pow_add_r by lia. rewrite Hn. apply Z.mul_lt_mono_pos_r; lia. }
  pose proof (dg_lower n (dg m - 1 + k) ltac:(lia) ltac:(lia)).
  pose proof (dg_upper n (dg m + k) ltac:(lia) ltac:(lia)). lia.
Qed.

(** Shifting a mantissa right. *)
Lemma shr_1_m r : 0 <= shr_m r -> shr_m (shr_1 r) = shr_m r / 2.
Proof.
  destruct r as [m rb sb]; simpl. intros Hm.
  destruct m as [|[p|p|]|p]; cbn [shr_m]; try lia.
  - reflexivity.
  - apply (Z.div_unique _ 2 _ 1); lia.
  - apply (Z.div_unique _ 2 _ 0); lia.
  - reflexivity.
Qed.

Lemma iter_shr_m n : forall r,
  0 <= shr_m r -> shr_m (SpecFloat.iter_pos shr_1 n r) = shr_m r / 2 ^ Zpos n.
Proof.
  assert (Hnn : forall r, 0 <= shr_m r -> 0 <= shr_m (shr_1 r)).
  { intros r Hr. rewrite shr_1_m by assumption. apply Z.div_pos; lia. }
  induction n as [n IH|n IH|]; intros r Hr; simpl SpecFloat.iter_pos.
  - rewrite IH, IH, shr_1_m by (rewrite ?IH; auto using Z.div_pos with zarith).
    rewrite !Z.div_div by lia. f_equal.
    replace (Zpos n~1) with (1 + Zpos n + Zpos n) by lia.
    rewrite !Z.pow_add_r by lia. change (2 ^ 1) with 2. lia.
  - rewrite IH, IH by (rewrite ?IH; auto using Z.div_pos with zarith).
    rewrite !Z.div_div by lia. f_equal.
    replace (Zpos n~0) with (Zpos n + Zpos n) by lia.
    rewrite !Z.pow_add_r by lia. reflexivity.
  - rewrite shr_1_m by assumption. reflexivity.
Qed.

Lemma shr_record_of_loc_m m l : shr_m (shr_record_of_loc m l) = m.
Proof. destruct l as [|[]]; reflexivity. Qed.

(** The target exponent above the subnormal range. *)
Lemma fexp64_normal x : -1074 <= x - 53 -> fexp64 x = x - 53.
Proof. unfold fexp, SpecFloat.emin, prec, emax. lia. Qed.

(** Bringing a mantissa to the target exponent keeps it positive and
    keeps [digits + exponent]. *)
Lemma shr_fexp_pos m e l :
  -1074 <= dg m + e - 53 ->
  exists m',
    shr_m (fst (shr_fexp prec emax (Zpos m) e l)) = Zpos m' /\
    dg m' + snd (shr_fexp prec emax (Zpos m) e l) = dg m + e.
Proof.
  intros Hn. unfold shr_fexp. simpl Zdigits2. fold (dg m).
  rewrite fexp64_normal by assumption.
  unfold shr. destruct (dg m + e - 53 - e) as [|n|n] eqn:Hd; simpl fst; simpl snd.
  - exists m. rewrite shr_record_of_loc_m. split; [reflexivity|lia].
  - rewrite iter_shr_m by (rewrite shr_record_of_loc_m; lia).
    rewrite shr_record_of_loc_m.
    destruct (dg_bounds m) as [Hlo Hhi].
    assert (Hd' : dg m = 52 + 1 + Zpos n) by lia.
    assert (Hq : 2 ^ 52 <= Zpos m / 2 ^ Zpos n < 2 ^ 53).
    { split.
      - apply Z.div_le_lower_bound; [lia|].
        rewrite <- Z.pow_add_r by lia.
        replace (Zpos n + 52) with (dg m - 1) by lia. exact Hlo.
      - apply Z.div_lt_upper_bound; [lia|].
        rewrite <- Z.pow_add_r by lia.
        replace (Zpos n + 53) with (dg m) by lia. exact Hhi. }
    destruct (Zpos m / 2 ^ Zpos n) as [|q|q] eqn:Hq'; [lia| |lia].
    exists q. split; [reflexivity|].
    pose proof (dg_lower q 52 ltac:(lia) ltac:(lia)).
    pose proof (dg_upper q 53 ltac:(lia) ltac:(lia)). lia.
  - exists m. rewrite shr_record_of_loc_m. split; [reflexivity|lia].
Qed.

Lemma round_nearest_even_pos m l :
  exists m', round_nearest_even (Zpos m) l = Zpos m' /\ Zpos m <= Zpos m'.
Proof.
  destruct l as [|[]]; simpl.
  - exists m; split; [reflexivity|lia].
  - destruct m; simpl; eexists; (split; [reflexivity|lia]).
  - exists m; split; [reflexivity|lia].
  - eexists; split; [reflexivity|lia].
Qed.

(** Rounding never lowers [digits + exponent], nor changes the sign;
    the result is finite or an infinity. *)
Lemma binary_round_aux_lower sx m e l :
  -1074 <= dg m + e - 53 ->
  binary_round_aux prec emax sx (Zpos m) e l = S754_infinity sx \/
  exists m' e',
    binary_round_aux prec emax sx (Zpos m) e l = S754_finite sx m' e' /\
    dg m + e <= dg m' + e'.
Proof.
  intros Hn. unfold binary_round_aux.
  destruct (shr_fexp_pos m e l Hn) as (m1 & Hm1 & He1).
  destruct (shr_fexp prec emax (Zpos m) e l) as [mrs1 e1]. simpl in Hm1, He1.
  rewrite Hm1.
  destruct (round_nearest_even_pos m1 (loc_of_shr_record mrs1)) as (m2 & Hm2 & Hle).
  rewrite Hm2.
  pose proof (dg_mono _ _ Hle) as Hdg.
  destruct (shr_fexp_pos m2 e1 loc_Exact ltac:(lia)) as (m3 & Hm3 & He3).
  destruct (shr_fexp prec emax (Zpos m2) e1 loc_Exact) as [mrs3 e3].
  simpl in Hm3, He3. rewrite Hm3.
  destruct (e3 <=? emax - prec); [right|left; reflexivity].
  exists m3, e3. split; [reflexivity|lia].
Qed.

Lemma binary_round_lower sx m e :
  -1074 <= dg m + e - 53 ->
  binary_round prec emax sx m e = S754_infinity sx \/
  exists m' e',
    binary_round prec emax sx m e = S754_finite sx m' e' /\
    dg m + e <= dg m' + e'.
Proof.
  intros Hn. unfold binary_round. fold (dg m).
  rewrite fexp64_normal by assumption.
  destruct (shl_align m e (dg m + e - 53)) as [mz ez] eqn:Hs.
  assert (Hz : dg mz + ez = dg m + e).
  { unfold shl_align in Hs.
    destruct (dg m + e - 53 - e) as [|d|d] eqn:Hd; inversion Hs; subst; try lia.
    rewrite (dg_mul_pow2 m (Pos.iter xO m d) (Zpos d)) by (try apply iter_xO_val; lia).
    lia. }
  destruct (binary_round_aux_lower sx mz ez loc_Exact ltac:(lia)) as [->|(m' & e' & -> & Hle)];
    [left; reflexivity|right].
  exists m', e'. split; [reflexivity|lia].
Qed.

(** *** Magnitudes of rounded results *)

Lemma binary_round_aux_sign sx m e l :
  match binary_round_aux prec emax sx m e l with
  | S754_zero s | S754_infinity s | S754_finite s _ _ => s = sx
  | S754_nan => True
  end.
Proof.
  unfold binary_round_aux.
  destruct (shr_fexp prec emax m e l) as [mrs1 e1].
  destruct (shr_fexp prec emax _ e1 loc_Exact) as [mrs2 e2].
  destruct (shr_m mrs2); [reflexivity| |exact I].
  destruct (e2 <=? emax - prec); reflexivity.
Qed.

Lemma binary_round_aux_big k m e l :
  -1022 <= k -> k + 1 <= dg m + e ->
  big k (binary_round_aux prec emax false (Zpos m) e l).
Proof.
  intros Hk Hd.
  destruct (binary_round_aux_lower false m e l ltac:(lia)) as [->|(m' & e' & -> & Hle)];
    split; simpl; try exact I; lia.
Qed.

Lemma binary_round_mag k sx m e :
  -1022 <= k -> k + 1 <= dg m + e ->
  mag_ge k (binary_round prec emax sx m e).
Proof.
  intros Hk Hd.
  destruct (binary_round_lower sx m e ltac:(lia)) as [->|(m' & e' & -> & Hle)];
    simpl; try exact I; lia.
Qed.

Lemma binary_round_big k m e :
  -1022 <= k -> k + 1 <= dg m + e ->
  big k (binary_round prec emax false m e).
Proof.
  intros Hk Hd.
  destruct (binary_round_lower false m e ltac:(lia)) as [->|(m' & e' & -> & Hle)];
    split; simpl; try exact I; lia.
Qed.

(** A square is NaN, zero or positive. *)
Lemma SFmul_self_nonneg f : nan_or nonneg (SF64mul f f).
Proof.
  destruct f as [s|s| |s m e]; simpl.
  - right. by destruct s.
  - right. by destruct s.
  - by left.
  - pose proof (binary_round_aux_sign (xorb s s) (Zpos (m * m)) (e + e) loc_Exact) as Hs.
    replace (xorb s s) with false in * by (by destruct s).
    destruct (binary_round_aux _ _ _ _ _ _) as [s'|s'| |s' m' e'];
      [right; by subst|right; by subst|by left|right; by subst].
Qed.

(** The square of a value of magnitude at least [2^k] is at least [2^(2k)]. *)
Lemma SFmul_self_big k f :
  -511 <= k -> mag_ge k f -> big (2 * k) (SF64mul f f).
Proof.
  intros Hk. destruct f as [s|s| |s m e]; simpl; try tauto.
  - intros _. by destruct s.
  - intros Hm. replace (xorb s s) with false by (by destruct s).
    apply binary_round_aux_big; [lia|].
    destruct (dg_bounds m) as [Hlo _]. pose proof (dg_pos m).
    assert (2 ^ (dg m - 1 + (dg m - 1)) <= Zpos (m * m)).
    { rewrite Z.pow_add_r, Pos2Z.inj_mul by lia. apply Z.mul_le_mono_nonneg; lia. }
    pose proof (dg_lower (m * m) (dg m - 1 + (dg m - 1)) ltac:(lia) ltac:(lia)).
    lia.
Qed.

Lemma shl_align_dg m e ez :
  ez <= e -> dg (fst (shl_align m e ez)) + ez = dg m + e.
Proof.
  intros Hle.
  rewrite (dg_mul_pow2 m _ (e - ez)) by (try apply shl_align_val; lia). lia.
Qed.

(** Adding a non-negative value to a big one leaves it big. *)
Lemma SFadd_big_l k a b :
  -1022 <= k -> nan_or (big k) a -> nan_or nonneg b -> nan_or (big k) (SF64add a b).
Proof.
  intros Hk [->|[Ha Hpa]] Hb; [by left|].
  destruct Hb as [->|Hpb]; [left; by destruct a|].
  destruct a as [sa|sa| |sa ma ea]; simpl in Ha, Hpa; try tauto; destruct sa; try tauto;
    destruct b as [sb|sb| |sb mb eb]; simpl in Hpb; try tauto; destruct sb; try tauto;
    try (right; split; simpl; tauto).
  right. unfold SF64add, SFadd. cbn [cond_Zopp].
  rewrite <- Pos2Z.inj_add. cbn [binary_normalize].
  apply binary_round_big; [lia|].
  pose proof (shl_align_dg ma ea (Z.min ea eb) ltac:(lia)).
  pose proof (dg_mono (fst (shl_align ma ea (Z.min ea eb)))
    (fst (shl_align ma ea (Z.min ea eb)) + fst (shl_align mb eb (Z.min ea eb)))
    ltac:(lia)). lia.
Qed.

Lemma SFadd_big_r k a b :
  -1022 <= k -> nan_or nonneg a -> nan_or (big k) b -> nan_or (big k) (SF64add a b).
Proof.
  intros Hk Ha [->|[Hb Hpb]]; [left; by destruct a as [| | |]|].
  destruct Ha as [->|Hpa]; [by left|].
  destruct a as [sa|sa| |sa ma ea]; simpl in Hpa; try tauto; destruct sa; try tauto;
    destruct b as [sb|sb| |sb mb eb]; simpl in Hb, Hpb; try tauto; destruct sb; try tauto;
    try (right; split; simpl; tauto).
  right. unfold SF64add, SFadd. cbn [cond_Zopp].
  rewrite <- Pos2Z.inj_add. cbn [binary_normalize].
  apply binary_round_big; [lia|].
  pose proof (shl_align_dg mb eb (Z.min ea eb) ltac:(lia)).
  pose proof (dg_mono (fst (shl_align mb eb (Z.min ea eb)))
    (fst (shl_align ma ea (Z.min ea eb)) + fst (shl_align mb eb (Z.min ea eb)))
    ltac:(lia)). lia.
Qed.

(** The square root of a value of at least [2^8] is at least [2^4]. *)
Lemma SFsqrt_big f : nan_or (big 8) f -> nan_or (big 4) (SF64sqrt f).
Proof.
  intros [->|[Hf Hp]]; [by left|]. right.
  destruct f as [s|s| |s m e]; simpl in Hf, Hp; try tauto; destruct s; try tauto.
  { split; exact I. }
  unfold SF64sqrt, SFsqrt, SFsqrt_core_binary. simpl Zdigits2. fold (dg m).
  set (e' := Z.min (fexp prec emax (Z.div2 (dg m + e + 1))) (Z.div2 e)).
  assert (He' : 2 * e' <= e).
  { assert (e' <= Z.div2 e) by (unfold e'; lia).
    rewrite Z.div2_div in H. clearbody e'.
    pose proof (Z.mul_div_le e 2 ltac:(lia)). lia. }
  set (m' := match e - 2 * e' with
             | 0 => Zpos m | Zpos _ => Z.shiftl (Zpos m) (e - 2 * e') | Zneg _ => 0
             end).
  assert (Hm' : m' = Zpos m * 2 ^ (e - 2 * e')).
  { unfold m'. destruct (e - 2 * e') as [|p|p] eqn:Hs; [simpl; lia| |lia].
    rewrite Z.shiftl_mul_pow2 by lia. reflexivity. }
  clearbody m'.
  rewrite (surjective_pairing (Z.sqrtrem m')), Z.sqrtrem_sqrt.
  assert (Hq : 1 <= Z.sqrt m' /\ 5 <= Z.log2 (Z.sqrt m') + 1 + e').
  { assert (H1 : 1 <= m').
    { rewrite Hm'. pose proof (Z.pow_pos_nonneg 2 (e - 2 * e') ltac:(lia) ltac:(lia)). nia. }
    assert (Hs1 : 1 <= Z.sqrt m').
    { apply Z.sqrt_le_square; lia. }
    split; [exact Hs1|].
    destruct (Z_le_gt_dec e' 4) as [Hle|Hgt].
    - assert (2 ^ (4 - e') <= Z.sqrt m').
      { apply Z.sqrt_le_square; [lia|apply Z.pow_nonneg; lia|].
        rewrite <- Z.pow_add_r, Hm' by lia.
        destruct (dg_bounds m) as [Hlo _]. pose proof (dg_pos m).
        transitivity (2 ^ (dg m - 1) * 2 ^ (e - 2 * e')).
        - rewrite <- Z.pow_add_r by lia. apply Z.pow_le_mono_r; lia.
        - apply Z.mul_le_mono_nonneg_r; [apply Z.pow_nonneg|]; lia. }
      pose proof (Z.log2_le_mono _ _ H).
      rewrite Z.log2_pow2 in * by lia. lia.
    - pose proof (Z.log2_nonneg (Z.sqrt m')). lia. }
  destruct Hq as [Hq1 Hq2].
  destruct (Z.sqrt m') as [|q|q] eqn:Hq; [lia| |lia].
  apply binary_round_aux_big; [lia|].
  assert (Z.log2 (Zpos q) + 1 <= dg q); [|lia].
  { destruct (dg_bounds q) as [_ Hhi]. pose proof (dg_pos q).
    apply Z.log2_lt_pow2 in Hhi; lia. }
Qed.

Lemma valid_binary_dg s m e :
  valid_binary (S754_finite s m e) = true ->
  dg m <= 53 /\ -1074 <= e /\ (-1074 < e -> dg m = 53).
Proof.
  unfold SpecFloat.valid_binary, bounded, canonical_mantissa, fexp, SpecFloat.emin.
  fold (dg m). unfold prec, emax. intros H.
  apply andb_prop in H as [H _]. apply Z.eqb_eq in H. lia.
Qed.

(** A valid value of at least [2^2] is not below 3. *)
Lemma big_not_ltb_3 f :
  valid_binary f = true -> nan_or (big 2) f ->
  SFltb f (S754_finite false 6755399441055744 (-51)) = false.
Proof.
  intros Hv [->|[Hf Hp]]; [reflexivity|].
  destruct f as [s|s| |s m e]; simpl in Hf, Hp; try tauto; destruct s; try tauto.
  apply valid_binary_dg in Hv as (Hd & _ & _).
  unfold SFltb, SFcompare.
  destruct (Z.compare_spec e (-51)) as [?|?|?]; try lia; reflexivity.
Qed.

Lemma big_weaken k k' f : k' <= k -> nan_or (big k) f -> nan_or (big k') f.
Proof.
  intros Hk [->|[Hf Hp]]; [by left|right]. split; [|exact Hp].
  destruct f; simpl in *; try tauto; lia.
Qed.

(** *** Distance from a far-away coordinate

    [c] is a bound with exponent [-47] (a value in [[32, 64)]), [g] a
    finite non-negative coordinate that lies at least 16 below [c]. *)
Lemma SFsub_far mc mg eg x :
  Zpos mc < 2 ^ 53 -> eg <= -47 ->
  2 ^ (4 - eg) + Zpos mg <= Zpos mc * 2 ^ (-47 - eg) ->
  valid_binary x = true ->
  SFltb (S754_finite false mc (-47)) (SFabs x) = true ->
  mag_ge 4 (SF64sub x (S754_finite false mg eg)).
Proof.
  intros Hmc Heg Hgap Hv Hlt.
  destruct x as [s|s| |s m e]; simpl in Hlt; try discriminate.
  { exact I. }
  apply valid_binary_dg in Hv as (Hd & He & Hn).
  unfold SFltb, SFcompare in Hlt.
  assert (Hx : -47 <= e /\ Zpos mc + 1 <= Zpos m * 2 ^ (e + 47)).
  { destruct (Z.compare_spec (-47) e) as [<-|Hl|Hg]; try discriminate.
    - split; [lia|]. simpl.
      change (Pos.compare_cont Eq mc m) with (Pos.compare mc m) in Hlt.
      destruct (Pos.compare_spec mc m) as [?|?|?]; try discriminate. lia.
    - split; [lia|].
      destruct (dg_bounds m) as [Hlo _]. rewrite Hn in Hlo by lia.
      assert (2 ^ 1 <= 2 ^ (e + 47)) by (apply Z.pow_le_mono_r; lia).
      change (2 ^ 1) with 2 in *. change (53 - 1) with 52 in Hlo.
      assert (2 ^ 52 * 2 <= Zpos m * 2 ^ (e + 47)) by (apply Z.mul_le_mono_nonneg; lia).
      change (2 ^ 52 * 2) with (2 ^ 53) in *. lia. }
  destruct Hx as [He47 Hx].
  unfold SF64sub, SFsub.
  replace (Z.min e eg) with eg by lia.
  rewrite (shl_align_val m e eg) by lia.
  rewrite (shl_align_val mg eg eg) by lia.
  replace (eg - eg) with 0 by lia. rewrite Z.pow_0_r, Z.mul_1_r.
  assert (HX : 2 ^ (4 - eg) + Zpos mg < Zpos m * 2 ^ (e - eg)).
  { replace (e - eg) with (e + 47 + (-47 - eg)) by lia.
    rewrite Z.pow_add_r, Z.mul_assoc by lia.
    pose proof (Z.pow_pos_nonneg 2 (-47 - eg) ltac:(lia) ltac:(lia)).
    assert ((Zpos mc + 1) * 2 ^ (-47 - eg) <= Zpos m * 2 ^ (e + 47) * 2 ^ (-47 - eg))
      by (apply Z.mul_le_mono_nonneg_r; lia).
    lia. }
  pose proof (Z.pow_pos_nonneg 2 (4 - eg) ltac:(lia) ltac:(lia)) as Hpow.
  destruct s; cbn [cond_Zopp].
  - destruct (- (Zpos m * 2 ^ (e - eg)) - Zpos mg) as [|d|d] eqn:HD; try lia.
    cbn [binary_normalize]. apply binary_round_mag; [lia|].
    pose proof (dg_lower d (4 - eg) ltac:(lia) ltac:(lia)). lia.
  - destruct (Zpos m * 2 ^ (e - eg) - Zpos mg) as [|d|d] eqn:HD; try lia.
    cbn [binary_normalize]. apply binary_round_mag; [lia|].
    pose proof (dg_lower d (4 - eg) ltac:(lia) ltac:(lia)). lia.
Qed.

(** The same when the coordinate subtracted is zero. *)
Lemma SFsub_far_zero mc sg x :
  valid_binary x = true ->
  SFltb (S754_finite false mc (-47)) (SFabs x) = true ->
  mag_ge 4 (SF64sub x (S754_zero sg)).
Proof.
  intros Hv Hlt.
  destruct x as [s|s| |s m e]; simpl in Hlt; try discriminate.
  { exact I. }
  apply valid_binary_dg in Hv as (Hd & He & Hn).
  unfold SFltb, SFcompare in Hlt. simpl.
  destruct (Z.compare_spec (-47) e) as [<-|Hl|Hg]; try discriminate;
    rewrite Hn by lia; lia.
Qed.

End BinaryMagnitudes.

(** ** A craft near a catalogue goal is inside the play area *)

(** A difference of at least 16 squares to at least 256. *)
Lemma square_big (d : float) :
  mag_ge 4 (Prim2SF d) -> big 8 (Prim2SF (d * d)).
Proof. intros Hd. rewrite mul_spec. by apply (SFmul_self_big 4). Qed.

(** A square is NaN or non-negative. *)
Lemma square_nonneg (d : float) : nan_or nonneg (Prim2SF (d * d)).
Proof. rewrite mul_spec. apply SFmul_self_nonneg. Qed.

(** The root of a sum of at least 256 (or NaN) is not below 3. *)
Lemma big_sum_not_below_3 (s : float) :
  nan_or (big 8) (Prim2SF s) -> (sqrt s <? 3) = false.
Proof.
  intros Hs. rewrite ltb_spec, sqrt_spec.
  change (Prim2SF 3) with (S754_finite false 6755399441055744 (-51)).
  apply big_not_ltb_3.
  - rewrite <- sqrt_spec. apply Prim2SF_valid.
  - apply (big_weaken 4); [done|]. by apply SFsqrt_big.
Qed.

(** Two points at least 16 apart along x, or along y, are not within 3
    of each other. *)
Lemma distance_far_x (a b : Vector3) :
  mag_ge 4 (Prim2SF (THREE.x a - THREE.x b)) ->
  (THREE.distanceTo a b <? 3) = false.
Proof.
  intros Hd. unfold THREE.distanceTo, THREE.distanceToSquared.
  apply big_sum_not_below_3.
  rewrite add_spec. apply SFadd_big_l; [done| |apply square_nonneg].
  rewrite add_spec. apply SFadd_big_l; [done| |apply square_nonneg].
  right. by apply square_big.
Qed.

Lemma distance_far_y (a b : Vector3) :
  mag_ge 4 (Prim2SF (THREE.y a - THREE.y b)) ->
  (THREE.distanceTo a b <? 3) = false.
Proof.
  intros Hd. unfold THREE.distanceTo, THREE.distanceToSquared.
  apply big_sum_not_below_3.
  rewrite add_spec. apply SFadd_big_l; [done| |apply square_nonneg].
  rewrite add_spec. apply SFadd_big_r; [done|apply square_nonneg|].
  right. by apply square_big.
Qed.

(** The goals of the catalogue. *)
Lemma catalogue_goals (level : Level) :
  level ∈ LEVELS ->
  level_goal level ∈
    [mkPoint2 20 0; mkPoint2 25 0; mkPoint2 25 10; mkPoint2 30 0;
     mkPoint2 30 15; mkPoint2 35 0; mkPoint2 30 20].
Proof.
  unfold LEVELS. rewrite !elem_of_cons, elem_of_nil.
  intros [->|[->|[->|[->|[->|[->|[->|[]]]]]]]]; simpl; set_solver.
Qed.

(** Every goal of the catalogue has [|x| <= 35] and [|y| <= 20]: a
    position past [|x| > 55] or [|y| > 45] is at least 16 away from it
    along that axis, so it cannot pass the goal test. *)
Lemma goal_reached_inside_bounds (level : Level) (pos : Vector3) :
  level ∈ LEVELS ->
  goal_reached
    (Some (createGoal (p_x (level_goal level)) (p_y (level_goal level)))) pos = true ->
  out_of_bounds pos = false.
Proof.
  intros Hlevel Hgoal. apply catalogue_goals in Hlevel.
  destruct (out_of_bounds pos) eqn:Hout; [exfalso|reflexivity].
  unfold goal_reached in Hgoal.
  change (GOAL_RADIUS * 1.2) with 3 in Hgoal.
  unfold out_of_bounds, gtb in Hout. apply orb_prop in Hout.
  change 55 with (SF2Prim (S754_finite false 7740561859543040 (-47))) in Hout.
  change 45 with (SF2Prim (S754_finite false 6333186975989760 (-47))) in Hout.
  rewrite !ltb_spec, !Prim2SF_SF2Prim in Hout by reflexivity.
  rewrite !elem_of_cons, elem_of_nil in Hlevel.
  destruct Hout as [Hx|Hy].
  - rewrite distance_far_x in Hgoal; [discriminate|].
    unfold createGoal; cbn [THREE.x].
    destruct Hlevel as [->|[->|[->|[->|[->|[->|[->|[]]]]]]]]; cbn [p_x];
      rewrite sub_spec; (eapply SFsub_far;
        [| | |apply Prim2SF_valid|rewrite <- abs_spec; eassumption]);
      solve [reflexivity | vm_compute; discriminate].
  - rewrite distance_far_y in Hgoal; [discriminate|].
    unfold createGoal; cbn [THREE.y].
    destruct Hlevel as [->|[->|[->|[->|[->|[->|[->|[]]]]]]]]; cbn [p_y];
      rewrite sub_spec;
      first [ eapply SFsub_far_zero; [apply Prim2SF_valid|rewrite <- abs_spec; eassumption]
            | eapply SFsub_far;
              [| | |apply Prim2SF_valid|rewrite <- abs_spec; eassumption];
              solve [reflexivity | vm_compute; discriminate] ].
Qed.

(** ** Order of binary64 values *)

Lemma SFcompare_antisym (a b : spec_float) :
  SFcompare b a = option_map CompOpp (SFcompare a b).
Proof.
  destruct a as [sa|sa| |sa ma ea], b as [sb|sb| |sb mb eb]; simpl;
    try reflexivity;
    try (destruct sa; reflexivity); try (destruct sb; reflexivity);
    try (destruct sa, sb; reflexivity).
  destruct sa, sb; simpl; try reflexivity;
    rewrite (Z.compare_antisym ea eb);
    destruct (ea ?= eb)%Z; simpl; try reflexivity;
    by rewrite (Pos.compare_cont_antisym ma mb Eq).
Qed.

(** [a <= b] rules out [a > b]. *)
Lemma leb_not_gtb (a b : float) : (a <=? b) = true -> gtb a b = false.
Proof.
  unfold gtb. rewrite leb_spec, ltb_spec. unfold SFleb, SFltb.
  rewrite (SFcompare_antisym (Prim2SF a) (Prim2SF b)).
  destruct (SFcompare (Prim2SF a) (Prim2SF b)) as [[]|]; simpl; congruence.
Qed.

(** ** The gravity field *)

(** The loop started from any accumulator, for use further down. *)
Lemma gravity_loop_foldl hit_distance point bodies : forall acc,
  gravity_loop hit_distance point acc bodies =
  if existsb (hits hit_distance point) bodies then None
  else Some (foldl (fun a body => THREE.add a (body_contribution point body)) acc bodies).
Proof.
  induction bodies as [|body rest IH]; intros acc; simpl; [reflexivity|].
  unfold hits at 1, THREE.clone.
  destruct (THREE.length (THREE.sub (position body) point) <? hit_distance body);
    simpl; [reflexivity|].
  rewrite IH. reflexivity.
Qed.

(** C1. Wherever the gravity loop runs to its end (no body is hit), in the
    predictor as in the flight integrator, the acceleration it returns is
    the sum, in list order, of the per-body contributions
    [8 * mass / (r + 10)^2] along the normalised displacement; a hit makes
    the loop stop without a result. *)
Theorem gravity_field_is_ordered_sum (hit_distance : Planet -> float)
    (point : Vector3) (bodies : list Planet) :
  gravity_loop hit_distance point THREE.zero bodies =
  if existsb (hits hit_distance point) bodies then None
  else Some (accelerationAt point bodies).
Proof.
  unfold accelerationAt. generalize THREE.zero as acceleration.
  induction bodies as [|body rest IH]; intros acceleration.
  - reflexivity.
  - cbn [gravity_loop existsb foldl]. unfold THREE.clone.
    change (THREE.length (THREE.sub (position body) point) <? hit_distance body)
      with (hits hit_distance point body).
    destruct (hits hit_distance point body); [reflexivity|].
    cbn [orb]. rewrite IH. reflexivity.
Qed.

(** The softening enters as [(r + 10)^2]: a body of mass 400 at distance 10
    pulls with [8 * 400 / 400 = 8], not with [8 * 400 / 110]. *)
Example softening_is_added_before_squaring :
  accelerationAt (THREE.mkVector3 0 (-2) 0)
    [mkPlanet (THREE.mkVector3 0 (-12) 0) 400 2.5]
  = THREE.mkVector3 0 (-8) 0.
Proof. vm_compute. reflexivity. Qed.

(** Summation follows the list: two bodies pulling along the same axis. *)
Example contributions_add_in_list_order (point : Vector3) (b1 b2 : Planet) :
  accelerationAt point [b1; b2] =
  THREE.add (THREE.add THREE.zero (body_contribution point b1))
            (body_contribution point b2).
Proof. reflexivity. Qed.

(** ** The trajectory predictor *)

Lemma predict_loop_app planets goal steps : forall pos vel positions,
  predict_loop planets goal steps pos vel positions =
  positions ++ predict_loop planets goal steps pos vel [].
Proof.
  induction steps as [|steps IH]; intros pos vel positions; simpl.
  - by rewrite app_nil_r.
  - destruct (gravity_loop _ _ _ _); [|by rewrite app_nil_r].
    destruct (predict_goal_reached _ _); [by rewrite app_nil_r|].
    destruct (predict_out_of_bounds _); [reflexivity|].
    rewrite IH. rewrite (IH _ _ [_]). by rewrite app_assoc.
Qed.

Lemma predict_loop_length planets goal steps : forall pos vel,
  length (predict_loop planets goal steps pos vel []) ≤ steps.
Proof.
  induction steps as [|steps IH]; intros pos vel; simpl; [lia|].
  destruct (gravity_loop _ _ _ _); simpl; [|lia].
  destruct (predict_goal_reached _ _); simpl; [lia|].
  destruct (predict_out_of_bounds _); simpl; [lia|].
  rewrite predict_loop_app. simpl. specialize (IH
    (THREE.add pos (THREE.multiplyScalar (THREE.clone
       (THREE.add vel (THREE.multiplyScalar v predict_dt))) predict_dt))
    (THREE.add vel (THREE.multiplyScalar v predict_dt))). lia.
Qed.

(** C5. The predictor steps with [dt = 0.048], at most 100 times, and
    returns at most 100 positions.  A step stops the prediction without
    appending when some body is closer than its radius or the point is
    closer than [1.5 * GOAL_RADIUS = 3.75] to the goal; otherwise it sets
    [vel += acceleration * dt], [pos += vel * dt], appends [pos], and stops
    after appending when [|pos.x| > 60] or [|pos.y| > 50]. *)
Theorem predictor_contract (bodies : list Planet) (goal : Vector3)
    (startPos velocity : Vector3) :
  predict_dt = 0.048 /\
  GOAL_RADIUS * 1.5 = 3.75 /\
  length (updateTrajectoryLine bodies (Some goal) startPos velocity) ≤ 100 /\
  predictTrajectory bodies (Some goal) startPos velocity 0 = [] /\
  forall steps,
    predictTrajectory bodies (Some goal) startPos velocity (S steps) =
    if existsb (hits radius startPos) bodies then []
    else if THREE.distanceTo startPos goal <? 3.75 then []
    else
      let vel := THREE.add velocity
                   (THREE.multiplyScalar (accelerationAt startPos bodies) 0.048) in
      let pos := THREE.add startPos (THREE.multiplyScalar vel 0.048) in
      pos :: (if gtb (abs (THREE.x pos)) 60 || gtb (abs (THREE.y pos)) 50 then []
              else predictTrajectory bodies (Some goal) pos vel steps).
Proof.
  assert (Hdt : predict_dt = 0.048) by (vm_compute; reflexivity).
  assert (Hgoal : GOAL_RADIUS * 1.5 = 3.75) by (vm_compute; reflexivity).
  split; [exact Hdt|]. split; [exact Hgoal|].
  split; [apply predict_loop_length|]. split; [reflexivity|].
  intros steps. unfold predictTrajectory, THREE.clone.
  cbn [predict_loop].
  rewrite gravity_loop_foldl. fold (accelerationAt startPos bodies).
  change (hits predict_hit_distance) with (hits radius).
  destruct (existsb _ _); [reflexivity|].
  unfold THREE.clone, predict_goal_reached. rewrite Hgoal, Hdt.
  destruct (THREE.distanceTo startPos goal <? 3.75); [reflexivity|].
  unfold predict_out_of_bounds. cbn [app].
  destruct (_ || _); [reflexivity|].
  by rewrite predict_loop_app.
Qed.

(** ** The flight integrator: collision *)

Lemma existsb_lookup {A} (f : A -> bool) (l : list A) (i : nat) (a : A) :
  l !! i = Some a -> f a = true -> existsb f l = true.
Proof.
  revert i. induction l as [|b l IH]; intros [|i] Hl Ha; simplify_eq/=.
  - by rewrite Ha.
  - rewrite (IH i Hl Ha). apply orb_true_r.
Qed.

(** C2. A frame of a flying craft that starts closer than
    [radius + 0.5] to some planet only sets the phase to [failed]:
    position, velocity and trail stay as they were. *)
Theorem collision_frame_only_fails (w : World) (pos : Vector3)
    (i : nat) (planet : Planet) :
  gameState w = flying ->
  spacecraft w = Some pos ->
  planets w !! i = Some planet ->
  (THREE.length (THREE.sub (position planet) pos) <? radius planet + 0.5) = true ->
  animate w = setGameState failed w /\
  gameState (animate w) = failed /\
  spacecraft (animate w) = Some pos /\
  spacecraftVelocity (animate w) = spacecraftVelocity w /\
  trailPositions (animate w) = trailPositions w.
Proof.
  intros Hfly Hcraft Hplanet Hhit.
  assert (Hanimate : animate w = setGameState failed w).
  { unfold animate, animate_trace. rewrite Hfly, Hcraft, gravity_loop_foldl.
    by rewrite (existsb_lookup _ _ i planet Hplanet Hhit). }
  rewrite Hanimate. simpl. auto.
Qed.

(** The grazing craft of [grazing_world] fails and stays where it is. *)
Lemma collision_frame_only_fails_witness :
  animate grazing_world = setGameState failed grazing_world /\
  gameState (animate grazing_world) = failed /\
  spacecraft (animate grazing_world) = Some (THREE.mkVector3 0 (-9.2) 0) /\
  spacecraftVelocity (animate grazing_world) = spacecraftVelocity grazing_world /\
  trailPositions (animate grazing_world) = trailPositions grazing_world.
Proof.
  apply (collision_frame_only_fails grazing_world (THREE.mkVector3 0 (-9.2) 0) 0
           (mkPlanet (THREE.mkVector3 0 (-12) 0) 400 2.5));
    vm_compute; reflexivity.
Defined.

(** ** Launch and cancelled launch *)

Section Release.
Context `{MathLib}.

(** C7. Releasing the pointer while aiming with a drag in progress: a
    power above 2 sets the velocity to
    [(cos angle * power * 0.5, sin angle * power * 0.5, 0)] and the phase
    to [flying]; a power in [(0, 2]] cancels the gesture, the phase stays
    [aiming] and the velocity stays what it was, [(0, 0, 0)] on a fresh
    run. *)
Theorem release_launches_or_cancels (w : World) :
  isDragging w = true ->
  gameState w = aiming ->
  (gtb (launchPower w) 2 = true ->
     spacecraftVelocity (onMouseUp w) =
       THREE.mkVector3 (Math_cos (launchAngle w) * launchPower w * 0.5)
                       (Math_sin (launchAngle w) * launchPower w * 0.5) 0 /\
     gameState (onMouseUp w) = flying) /\
  ((0 <? launchPower w) = true -> (launchPower w <=? 2) = true ->
     gameState (onMouseUp w) = aiming /\
     spacecraftVelocity (onMouseUp w) = spacecraftVelocity w /\
     (spacecraftVelocity w = THREE.mkVector3 0 0 0 ->
      spacecraftVelocity (onMouseUp w) = THREE.mkVector3 0 0 0)).
Proof.
  intros Hdrag Haim. unfold onMouseUp. rewrite Hdrag, Haim. simpl.
  split.
  - intros ->. simpl. auto.
  - intros _ Hle. rewrite (leb_not_gtb _ _ Hle). simpl. auto.
Qed.

End Release.

(** ** The trail *)

Section Trail.
#[local] Open Scope nat_scope.

Lemma push_trail_drop (trail : list Vector3) (p : Vector3) :
  length trail ≤ 100 ->
  push_trail trail p = drop (length (trail ++ [p]) - 100) (trail ++ [p]).
Proof.
  intros Hlen. unfold push_trail, MAX_TRAIL_LENGTH.
  rewrite length_app. simpl length.
  destruct (Nat.ltb_spec 100 (length trail + 1)) as [Hgt|Hle].
  - replace (length trail + 1 - 100) with 1 by lia.
    by destruct (trail ++ [p]).
  - by replace (length trail + 1 - 100) with 0 by lia.
Qed.

Lemma push_trail_length (trail : list Vector3) (p : Vector3) :
  length trail ≤ 100 -> length (push_trail trail p) ≤ 100.
Proof.
  intros Hlen. rewrite push_trail_drop by done.
  rewrite length_drop, length_app. simpl. lia.
Qed.

(** A frame that leaves the craft flying moved it and pushed its new
    position on the trail. *)
Lemma animate_still_flying (w : World) :
  gameState w = flying -> spacecraft w <> None ->
  gameState (animate w) = flying ->
  exists p,
    spacecraft (animate w) = Some p /\
    trailPositions (animate w) = push_trail (trailPositions w) p.
Proof.
  intros Hfly Hcraft Hstill. unfold animate, animate_trace in *.
  rewrite Hfly in *. destruct (spacecraft w) as [pos|]; [|done].
  destruct (gravity_loop _ _ _ _) as [acc|]; [|done].
  unfold check_goal, check_bounds, integrate in *. simpl in *.
  repeat case_match; simplify_eq/=; eauto.
Qed.

(** C9. Over frames that leave the craft flying, the trail is the last
    100 entries, oldest first, of what it held followed by the positions
    taken since: it never exceeds 100 entries and holds exactly 100 after
    more than 100 frames. *)
Theorem trail_is_recent_history (n : nat) (w : World) :
  length (trailPositions w) ≤ 100 ->
  spacecraft w <> None ->
  (forall k, k ≤ n -> gameState (frames k w) = flying) ->
  let history := trailPositions w ++ flight_path n w in
  length (flight_path n w) = n /\
  trailPositions (frames n w) = drop (length history - 100) history /\
  length (trailPositions (frames n w)) ≤ 100 /\
  (100 < n -> length (trailPositions (frames n w)) = 100).
Proof.
  revert w. induction n as [|n IH]; intros w Hlen Hcraft Hfly; cbn zeta.
  - simpl. rewrite app_nil_r.
    replace (length (trailPositions w) - 100) with 0 by lia.
    repeat split; [done|lia].
  - pose proof (Hfly 0 ltac:(lia)) as Hfly0. simpl in Hfly0.
    pose proof (Hfly 1 ltac:(lia)) as Hfly1. simpl in Hfly1.
    destruct (animate_still_flying w Hfly0 Hcraft Hfly1) as (p & Hp & Htrail).
    destruct (IH (animate w)) as (Hpath & Hdrop & Hbound & _).
    { rewrite Htrail. by apply push_trail_length. }
    { by rewrite Hp. }
    { intros k Hk. apply (Hfly (S k)). lia. }
    simpl frames. simpl flight_path. rewrite Hp.
    assert (Heq : trailPositions (frames n (animate w)) =
                  drop (length (trailPositions w ++ p :: flight_path n (animate w)) - 100)
                       (trailPositions w ++ p :: flight_path n (animate w))).
    { set (fp := flight_path n (animate w)) in *.
      replace (trailPositions w ++ p :: fp) with ((trailPositions w ++ [p]) ++ fp)
        by (by rewrite <- app_assoc).
      rewrite Hdrop, Htrail, push_trail_drop by done.
      set (t := trailPositions w ++ [p]).
      assert (Ht : length t = length (trailPositions w) + 1)
        by (unfold t; rewrite length_app; simpl; lia).
      rewrite <- (drop_app_le t fp (length t - 100)) by lia.
      rewrite drop_drop. f_equal.
      rewrite length_drop, !length_app. lia. }
    split; [simpl; lia|]. split; [exact Heq|]. split; [exact Hbound|].
    intros Hn. rewrite Heq, length_drop, length_app. simpl. lia.
Qed.

End Trail.


(** ** Level initialisation *)

Lemma initLevel_Some (i : nat) (level : Level) (w : World) :
  LEVELS !! i = Some level ->
  initLevel i w =
  mkWorld (currentLevel w) aiming (attempts w + 1) (showMenu w)
    (showLevelSelect w) (isDragging w) (launchPower w) (launchAngle w)
    (completedLevels w) (retryCounter w)
    (Some (THREE.mkVector3 (p_x (level_spacecraft level))
                           (p_y (level_spacecraft level)) 0))
    (THREE.mkVector3 0 0 0)
    (map createPlanet (level_planets level))
    (Some (createGoal (p_x (level_goal level)) (p_y (level_goal level))))
    [] (effectTracksLevelSelect w).
Proof. intros Hi. unfold initLevel. rewrite Hi. reflexivity. Qed.

Lemma initLevel_None (i : nat) (w : World) :
  LEVELS !! i = None -> initLevel i w = w.
Proof. intros Hi. unfold initLevel. by rewrite Hi. Qed.

Lemma initLevel_fresh (i : nat) (level : Level) (w : World) :
  LEVELS !! i = Some level ->
  fresh_run level (initLevel i w) /\ same_aim w (initLevel i w).
Proof.
  intros Hi. rewrite (initLevel_Some i level w Hi).
  unfold fresh_run, same_aim. simpl. tauto.
Qed.

(** Reduces the projections of written worlds. *)
Ltac world_simpl :=
  cbn [currentLevel gameState attempts showMenu showLevelSelect isDragging
       launchPower launchAngle completedLevels retryCounter spacecraft
       spacecraftVelocity planets goal trailPositions effectTracksLevelSelect
       setGameState setAttempts setIsDragging setLaunchPower setLaunchAngle
       setCompletedLevels write_spacecraft write_spacecraftVelocity
       write_planets write_goal write_trailPositions write_currentLevel
       write_showMenu write_showLevelSelect write_retryCounter
       write_effectTracksLevelSelect] in *.

(** ** What the handlers leave alone *)

Lemma levelEffect_cases (w : World) :
  (((showMenu w || showLevelSelect w) = true \/ LEVELS !! currentLevel w = None) /\
   levelEffect w = write_effectTracksLevelSelect (negb (showMenu w)) w) \/
  (showMenu w = false /\ showLevelSelect w = false /\
   exists level, LEVELS !! currentLevel w = Some level /\
     levelEffect w =
     initLevel (currentLevel w) (write_effectTracksLevelSelect true w)).
Proof.
  unfold levelEffect.
  cbn [showMenu showLevelSelect currentLevel write_effectTracksLevelSelect].
  destruct (showMenu w) eqn:Hmenu; [left; by auto|].
  destruct (showLevelSelect w) eqn:Hselect; [left; by auto|].
  cbn [negb andb].
  destruct (LEVELS !! currentLevel w) as [level|] eqn:Hlevel.
  - right. do 2 (split; [done|]). by exists level.
  - left. split; [by right|]. by apply initLevel_None.
Qed.

Lemma levelEffect_completedLevels (w : World) :
  completedLevels (levelEffect w) = completedLevels w.
Proof.
  destruct (levelEffect_cases w) as [[_ ->]|(_ & _ & level & Hlevel & ->)]; [done|].
  by rewrite (initLevel_Some _ level).
Qed.

Lemma setShowMenu_completedLevels v w :
  completedLevels (setShowMenu v w) = completedLevels w.
Proof. unfold setShowMenu. case_decide; [done|]. by rewrite levelEffect_completedLevels. Qed.

Lemma setShowLevelSelect_completedLevels v w :
  completedLevels (setShowLevelSelect v w) = completedLevels w.
Proof.
  unfold setShowLevelSelect. case_decide; [done|].
  destruct (effectTracksLevelSelect w); [|done]. by rewrite levelEffect_completedLevels.
Qed.

Lemma setCurrentLevel_completedLevels v w :
  completedLevels (setCurrentLevel v w) = completedLevels w.
Proof. unfold setCurrentLevel. case_decide; [done|]. by rewrite levelEffect_completedLevels. Qed.

Lemma setRetryCounter_completedLevels v w :
  completedLevels (setRetryCounter v w) = completedLevels w.
Proof. unfold setRetryCounter. case_decide; [done|]. by rewrite levelEffect_completedLevels. Qed.

Lemma animate_completedLevels (w : World) :
  completedLevels (animate w) = completedLevels w \/
  (gameState w = flying /\
   head (snd (animate_trace w)) = Some success /\
   completedLevels (animate w) = {[ currentLevel w ]} ∪ completedLevels w).
Proof.
  unfold animate, animate_trace.
  destruct (gameState w) eqn:Hphase; auto.
  destruct (spacecraft w) as [pos|]; auto.
  destruct (gravity_loop _ _ _ _) as [acc|]; auto.
  unfold check_goal, check_bounds, integrate. simpl.
  destruct (goal_reached _ _); simpl; destruct (out_of_bounds _); simpl; auto.
Qed.

Section Machine_completedLevels.
Context `{MathLib}.

(** Only a frame that reaches the goal changes [completedLevels], and it
    adds the current level. *)
Lemma handle_completedLevels (e : Event) (w : World) :
  completedLevels (handle e w) = completedLevels w \/
  (e = Frame /\ gameState w = flying /\
   head (snd (animate_trace w)) = Some success /\
   completedLevels (handle e w) = {[ currentLevel w ]} ∪ completedLevels w).
Proof.
  destruct e; simpl;
    try (left;
         unfold onMouseDown, onMouseMove, onMouseUp, startGame, nextLevel,
           retryLevel, openLevelSelect, selectLevel, backToMenu, openMenu;
         repeat case_match; simpl;
         rewrite ?setShowMenu_completedLevels, ?setShowLevelSelect_completedLevels,
           ?setCurrentLevel_completedLevels, ?setRetryCounter_completedLevels;
         simpl;
         rewrite ?setShowMenu_completedLevels, ?setShowLevelSelect_completedLevels,
           ?setCurrentLevel_completedLevels, ?setRetryCounter_completedLevels;
         reflexivity).
  destruct (animate_completedLevels w) as [?|?]; auto.
Qed.

End Machine_completedLevels.

(** ** The invariant holds in every reachable world *)

Lemma fresh_run_ext (level : Level) (w w' : World) :
  fresh_run level w ->
  gameState w' = gameState w -> spacecraft w' = spacecraft w ->
  spacecraftVelocity w' = spacecraftVelocity w -> planets w' = planets w ->
  goal w' = goal w -> trailPositions w' = trailPositions w ->
  fresh_run level w'.
Proof. unfold fresh_run. intros ? -> -> -> -> -> ->. done. Qed.

Lemma invariant_initialWorld : invariant initialWorld.
Proof.
  constructor; simpl; first [done | lia | intros _; by right].
Qed.

(** Re-running the level effect after a write to one of its signals. *)
Lemma invariant_levelEffect (w w' : World) :
  invariant w ->
  (currentLevel w' < length LEVELS)%nat ->
  gameState w' = gameState w -> isDragging w' = isDragging w ->
  spacecraft w' = spacecraft w -> spacecraftVelocity w' = spacecraftVelocity w ->
  planets w' = planets w -> goal w' = goal w ->
  trailPositions w' = trailPositions w ->
  invariant (levelEffect w').
Proof.
  intros [Hlevel Htracks Hgoal Htrail Hdrag Haiming Hscene]
    Hlevel' Hphase Hdragging Hcraft Hvel Hplanets Hgoal' Htrail'.
  destruct (levelEffect_cases w') as [[Hopen ->]|(Hmenu & Hselect & level & Hl & ->)].
  - assert (Hmenus : (showMenu w' || showLevelSelect w') = true).
    { destruct Hopen as [?|Hnone]; [done|].
      apply lookup_ge_None_1 in Hnone. lia. }
    constructor; simpl; rewrite ?Hphase, ?Hdragging, ?Hcraft, ?Htrail'; try done.
    + unfold goal_from_catalogue. simpl. by rewrite Hgoal'.
    + intros Haim. destruct (Haiming Haim) as [(level & Hin & Hfresh)|[_ Hnodrag]].
      * left. exists level. split; [done|].
        apply (fresh_run_ext level w); simpl; congruence.
      * by right.
    + by rewrite Hgoal'.
  - rewrite (initLevel_Some _ level) by done.
    assert (Hin : level ∈ LEVELS) by (by eapply list_elem_of_lookup_2).
    constructor; simpl; rewrite ?Hmenu; try done.
    + intros g [= <-]. by exists level.
    + lia.
    + intros _. left. exists level. split; [done|].
      unfold fresh_run. simpl. tauto.
Qed.

Lemma invariant_setShowMenu (v : bool) (w : World) :
  invariant w -> invariant (setShowMenu v w).
Proof.
  intros Hinv. unfold setShowMenu. case_decide; [done|].
  apply (invariant_levelEffect w); try done. apply Hinv.
Qed.

Lemma invariant_setCurrentLevel (v : nat) (w : World) :
  (v < length LEVELS)%nat -> invariant w -> invariant (setCurrentLevel v w).
Proof.
  intros Hv Hinv. unfold setCurrentLevel. case_decide; [done|].
  by apply (invariant_levelEffect w).
Qed.

Lemma invariant_setRetryCounter (v : Z) (w : World) :
  invariant w -> invariant (setRetryCounter v w).
Proof.
  intros Hinv. unfold setRetryCounter. case_decide; [done|].
  apply (invariant_levelEffect w); try done. apply Hinv.
Qed.

Lemma invariant_setShowLevelSelect (v : bool) (w : World) :
  invariant w -> invariant (setShowLevelSelect v w).
Proof.
  intros Hinv. unfold setShowLevelSelect. case_decide; [done|].
  destruct (effectTracksLevelSelect w) eqn:Htracks.
  { apply (invariant_levelEffect w); try done. apply Hinv. }
  destruct Hinv as [Hlevel Htr Hgoal Htrail Hdrag Haiming Hscene].
  rewrite Htracks in Htr.
  constructor; simpl; try done; [congruence|].
  intros Haim. destruct (Haiming Haim) as [?|[_ ?]]; [by left|right].
  destruct (showMenu w); done.
Qed.

Lemma invariant_setAttempts (v : Z) (w : World) :
  invariant w -> invariant (setAttempts v w).
Proof. intros [? ? ? ? ? ? ?]. by constructor. Qed.

(** The last level completed: back to the menu, phase [aiming]. *)
Lemma invariant_game_complete (w : World) :
  invariant w -> invariant (setShowMenu true (setGameState aiming w)).
Proof.
  intros [Hlevel Htr Hgoal Htrail Hdrag Haiming Hscene].
  assert (Hrun : (exists level, level ∈ LEVELS /\ fresh_run level (setGameState aiming w)) \/
                 isDragging w = false).
  { destruct (isDragging w) eqn:Hd; [left|by right].
    destruct (Haiming (Hdrag eq_refl)) as [(level & Hin & Hfresh)|[_ ?]]; [|done].
    exists level. split; [done|]. unfold fresh_run in *. simpl. tauto. }
  unfold setShowMenu. simpl. case_decide as Hmenu.
  - constructor; simpl; try done.
    intros _. destruct Hrun as [?|?]; [by left|right]. by rewrite Hmenu.
  - destruct (levelEffect_cases (write_showMenu true (setGameState aiming w)))
      as [[_ ->]|(Hm & _)]; [|done].
    constructor; simpl; try done.
    intros _. destruct Hrun as [(level & Hin & Hfresh)|?]; [left|by right].
    exists level. split; [done|]. unfold fresh_run in *. simpl in *. tauto.
Qed.

Lemma invariant_animate (w : World) : invariant w -> invariant (animate w).
Proof.
  intros Hinv. unfold animate, animate_trace.
  destruct (gameState w) eqn:Hphase; try done.
  destruct (spacecraft w) as [pos|] eqn:Hcraft; [|done].
  destruct Hinv as [Hlevel Htr Hgoal Htrail Hdrag Haiming Hscene].
  assert (Hnodrag : isDragging w = true -> False).
  { intros Hd. apply Hdrag in Hd. congruence. }
  assert (Hgoal' : goal w <> None) by (apply Hscene; congruence).
  destruct (gravity_loop _ _ _ _) as [acc|].
  - unfold check_goal, check_bounds, integrate. simpl.
    pose proof (push_trail_length (trailPositions w)
      (THREE.clone (THREE.add pos (THREE.multiplyScalar (THREE.clone
         (THREE.add (spacecraftVelocity w) (THREE.multiplyScalar acc flight_dt)))
         flight_dt))) Htrail) as Hpush.
    destruct (goal_reached _ _); simpl; destruct (out_of_bounds _); simpl;
      constructor; simpl; rewrite ?Hphase; done.
  - constructor; simpl; try done. by rewrite Hcraft.
Qed.

Section ReachableInvariant.
Context `{MathLib}.

Lemma invariant_onMouseDown (w : World) : invariant w -> invariant (onMouseDown w).
Proof.
  intros Hinv. unfold onMouseDown.
  destruct (showMenu w) eqn:Hmenu; [done|].
  destruct (showLevelSelect w) eqn:Hselect; [done|]. simpl.
  case_bool_decide as Haim; [|done]. simpl.
  destruct Hinv as [Hlevel Htr Hgoal Htrail Hdrag Haiming Hscene].
  constructor; simpl; try done.
  intros _. destruct (Haiming Haim) as [?|[Hopen _]]; [by left|].
  by rewrite Hmenu, Hselect in Hopen.
Qed.

Lemma invariant_onMouseMove (p : Vector3) (w : World) :
  invariant w -> invariant (onMouseMove p w).
Proof.
  intros Hinv. unfold onMouseMove.
  destruct (negb (isDragging w) || negb (bool_decide (gameState w = aiming))); [done|].
  destruct (spacecraft w); [|done].
  destruct Hinv as [? ? ? ? ? ? ?]. by constructor.
Qed.

Lemma invariant_onMouseUp (w : World) : invariant w -> invariant (onMouseUp w).
Proof.
  intros Hinv. unfold onMouseUp.
  destruct (isDragging w) eqn:Hd; [|done]. simpl.
  case_bool_decide as Haim; [|done]. simpl.
  destruct Hinv as [Hlevel Htr Hgoal Htrail Hdrag Haiming Hscene].
  destruct (Haiming Haim) as [(level & Hin & Hfresh)|[_ ?]]; [|congruence].
  destruct (gtb (launchPower w) 2); constructor; simpl; try done.
  - intros _. unfold fresh_run in Hfresh.
    destruct Hfresh as (-> & _ & _ & _ & -> & _). done.
  - intros _. left. exists level. split; [done|].
    unfold fresh_run in *. simpl. tauto.
Qed.

Lemma invariant_handle (e : Event) (w : World) :
  enabled e -> invariant w -> invariant (handle e w).
Proof.
  intros He Hinv. destruct e; simpl in *.
  - by apply invariant_onMouseDown.
  - by apply invariant_onMouseMove.
  - by apply invariant_onMouseUp.
  - by apply invariant_animate.
  - unfold startGame. apply invariant_setAttempts, invariant_setCurrentLevel; [simpl; lia|].
    by apply invariant_setShowMenu.
  - unfold nextLevel. simpl length.
    destruct (Nat.ltb_spec (currentLevel w) (7 - 1)) as [Hlt|_].
    + apply invariant_setCurrentLevel; [simpl; lia|done].
    + by apply invariant_game_complete.
  - unfold retryLevel. by apply invariant_setRetryCounter.
  - unfold openLevelSelect. by apply invariant_setShowMenu, invariant_setShowLevelSelect.
  - unfold selectLevel. apply invariant_setAttempts, invariant_setCurrentLevel; [done|].
    by apply invariant_setShowLevelSelect.
  - unfold backToMenu. by apply invariant_setShowMenu, invariant_setShowLevelSelect.
  - unfold openMenu. by apply invariant_setShowMenu.
Qed.

Lemma reachable_invariant (w : World) : reachable w -> invariant w.
Proof.
  induction 1 as [|e w _ IH He]; [apply invariant_initialWorld|].
  by apply invariant_handle.
Qed.

Lemma reachable_run (events : list Event) (w : World) :
  reachable w -> Forall enabled events -> reachable (run events w).
Proof.
  intros Hw Hev. revert w Hw. unfold run.
  induction Hev as [|e events He _ IH]; intros w Hw; simpl; [done|].
  apply IH. by constructor.
Qed.

End ReachableInvariant.

(** ** Phase transitions *)

Lemma phase_kept_refl (w : World) : phase_kept w w.
Proof. by left. Qed.

Lemma phase_kept_trans (w1 w2 w3 : World) :
  phase_kept w1 w2 -> phase_kept w2 w3 -> phase_kept w1 w3.
Proof.
  unfold phase_kept. intros [?|?] [?|?];
    first [left; congruence | right; congruence].
Qed.

Lemma phase_kept_levelEffect (w : World) : phase_kept w (levelEffect w).
Proof.
  destruct (levelEffect_cases w) as [[_ ->]|(_ & _ & level & Hl & ->)]; [by left|].
  right. by rewrite (initLevel_Some _ level).
Qed.

Lemma phase_kept_setShowMenu v w : phase_kept w (setShowMenu v w).
Proof.
  unfold setShowMenu. case_decide; [apply phase_kept_refl|].
  apply (phase_kept_levelEffect (write_showMenu v w)).
Qed.

Lemma phase_kept_setShowLevelSelect v w : phase_kept w (setShowLevelSelect v w).
Proof.
  unfold setShowLevelSelect. case_decide; [apply phase_kept_refl|].
  destruct (effectTracksLevelSelect w); [|by left].
  apply (phase_kept_levelEffect (write_showLevelSelect v w)).
Qed.

Lemma phase_kept_setCurrentLevel v w : phase_kept w (setCurrentLevel v w).
Proof.
  unfold setCurrentLevel. case_decide; [apply phase_kept_refl|].
  apply (phase_kept_levelEffect (write_currentLevel v w)).
Qed.

Lemma phase_kept_setRetryCounter v w : phase_kept w (setRetryCounter v w).
Proof.
  unfold setRetryCounter. case_decide; [apply phase_kept_refl|].
  apply (phase_kept_levelEffect (write_retryCounter v w)).
Qed.

Lemma phase_kept_setAttempts v w : phase_kept w (setAttempts v w).
Proof. by left. Qed.

Create HintDb phase.

#[local] Hint Resolve phase_kept_refl phase_kept_setShowMenu
  phase_kept_setShowLevelSelect phase_kept_setCurrentLevel
  phase_kept_setRetryCounter phase_kept_setAttempts : phase.

(** What a frame does, by priority. *)
Lemma animate_trace_outcome (w : World) (pos : Vector3) :
  gameState w = flying -> spacecraft w = Some pos ->
  (goal_reached (goal w) (next_position w pos) = true ->
   out_of_bounds (next_position w pos) = false) ->
  gameState (animate w) = frame_outcome w pos /\
  snd (animate_trace w) =
    (if decide (frame_outcome w pos = flying) then [] else [frame_outcome w pos]).
Proof.
  intros Hfly Hcraft Hexcl. unfold animate, animate_trace, frame_outcome.
  rewrite Hfly, Hcraft, gravity_loop_foldl.
  fold (accelerationAt pos (planets w)).
  destruct (existsb _ _); [done|].
  unfold check_goal, check_bounds, integrate. simpl.
  change flight_dt with 0.016. unfold THREE.clone.
  fold (next_velocity w pos). fold (next_position w pos).
  destruct (goal_reached _ _) eqn:Hgoal; simpl.
  - rewrite (Hexcl eq_refl). done.
  - destruct (out_of_bounds _); simpl; [done|]. by rewrite Hfly.
Qed.

Lemma animate_not_flying (w : World) : gameState w <> flying -> animate w = w.
Proof. unfold animate, animate_trace. by destruct (gameState w). Qed.

Section Claims.
Context `{MathLib}.

(** Handlers other than the pointer release never start a flight. *)
Lemma handle_phase_kept (e : Event) (w : World) :
  e <> MouseUp -> gameState w <> flying -> gameState (handle e w) <> flying.
Proof.
  intros He Hphase.
  assert (Hkept : phase_kept w (handle e w)); [|destruct Hkept; congruence].
  destruct e; simpl; try done.
  - unfold onMouseDown. case_match; by left.
  - unfold onMouseMove. repeat case_match; by left.
  - rewrite animate_not_flying by done. by left.
  - unfold startGame. eauto using phase_kept_trans with phase.
  - unfold nextLevel. case_match; [auto with phase|].
    eapply phase_kept_trans; [|apply phase_kept_setShowMenu]. by right.
  - unfold retryLevel. auto with phase.
  - unfold openLevelSelect. eauto using phase_kept_trans with phase.
  - unfold selectLevel. eauto using phase_kept_trans with phase.
  - unfold backToMenu. eauto using phase_kept_trans with phase.
  - unfold openMenu. auto with phase.
Qed.

(** In a reachable world the goal is a catalogue goal, so the goal check
    and the bounds check never both apply. *)
Lemma reachable_goal_excludes_bounds (w : World) (pos : Vector3) :
  reachable w -> goal_reached (goal w) pos = true -> out_of_bounds pos = false.
Proof.
  intros Hreach Hgoal. destruct (goal w) as [g|] eqn:Hg; [|done].
  destruct (inv_goal w (reachable_invariant w Hreach) g Hg) as (level & Hin & ->).
  by apply (goal_reached_inside_bounds level).
Qed.

Lemma reachable_frames (n : nat) (w : World) :
  reachable w -> reachable (frames n w).
Proof.
  revert w. induction n as [|n IH]; intros w Hw; simpl; [done|].
  apply IH. by apply (reachable_step Frame).
Qed.

(** C4. In every reachable world a frame of a flying craft ends in the
    phase that collision, goal and bounds, tried in this order, decide,
    and writes the phase at most once; a frame outside [flying] changes
    nothing; and a flight only ever starts by releasing the pointer over a
    freshly initialised Run, that is after a level entry or a retry. *)
Theorem one_transition_per_frame (w : World) :
  reachable w ->
  (forall pos, gameState w = flying -> spacecraft w = Some pos ->
     gameState (animate w) = frame_outcome w pos /\
     snd (animate_trace w) =
       (if decide (frame_outcome w pos = flying) then []
        else [frame_outcome w pos])) /\
  (length (snd (animate_trace w)) ≤ 1)%nat /\
  (gameState w <> flying -> animate w = w) /\
  (forall e, gameState w <> flying -> gameState (handle e w) = flying ->
     e = MouseUp /\
     exists level, level ∈ LEVELS /\
       spacecraft (handle e w) =
         Some (THREE.mkVector3 (p_x (level_spacecraft level))
                               (p_y (level_spacecraft level)) 0) /\
       trailPositions (handle e w) = [] /\
       planets (handle e w) = map createPlanet (level_planets level) /\
       goal (handle e w) =
         Some (createGoal (p_x (level_goal level)) (p_y (level_goal level)))).
Proof.
  intros Hreach. pose proof (reachable_invariant w Hreach) as Hinv.
  assert (Hexcl : forall pos,
    goal_reached (goal w) pos = true -> out_of_bounds pos = false)
    by (intros pos; by apply reachable_goal_excludes_bounds).
  assert (Hframe : forall pos, gameState w = flying -> spacecraft w = Some pos ->
    gameState (animate w) = frame_outcome w pos /\
    snd (animate_trace w) =
      (if decide (frame_outcome w pos = flying) then []
       else [frame_outcome w pos])).
  { intros pos Hfly Hcraft. apply animate_trace_outcome; auto. }
  split; [exact Hframe|]. split; [|split].
  - destruct (decide (gameState w = flying)) as [Hfly|Hno].
    + destruct (spacecraft w) as [pos|] eqn:Hcraft.
      * destruct (Hframe pos Hfly eq_refl) as [_ ->]. case_decide; simpl; lia.
      * unfold animate_trace. rewrite Hfly, Hcraft. simpl. lia.
    + unfold animate_trace. destruct (gameState w); simpl; try lia. done.
  - apply animate_not_flying.
  - intros e Hphase Hfly.
    assert (He : e = MouseUp \/ e <> MouseUp)
      by (destruct e; first [by left | by right]).
    destruct He as [->|Hne]; [|by destruct (handle_phase_kept e w Hne Hphase)].
    split; [done|]. simpl in *. unfold onMouseUp in *.
    destruct (isDragging w) eqn:Hdrag; simpl in *; [|done].
    case_bool_decide as Haim; simpl in *; [|done].
    destruct (inv_aiming w Hinv Haim) as [(level & Hin & Hfresh)|[_ ?]]; [|congruence].
    exists level. split; [done|].
    destruct Hfresh as (Hc & _ & Ht & Hp & Hg & _).
    destruct (gtb (launchPower w) 2); simpl in *; [done|congruence].
Qed.

Lemma frames_not_flying (n : nat) (w : World) :
  gameState w <> flying -> frames n w = w.
Proof.
  intros Hphase. induction n as [|n IH]; simpl; [done|].
  by rewrite animate_not_flying.
Qed.

Lemma size_add_level (level : nat) (done_levels : gset nat) :
  size ({[ level ]} ∪ done_levels) =
  if decide (level ∈ done_levels) then size done_levels
  else S (size done_levels).
Proof.
  destruct (decide (level ∈ done_levels)) as [Hin|Hin].
  - by rewrite (subseteq_union_1_L {[ level ]} done_levels) by set_solver.
  - rewrite size_union by set_solver. by rewrite size_singleton.
Qed.

(** C6. A frame of a flying craft that hits no planet and ends closer
    than [1.2 * GOAL_RADIUS = 3] to the goal sets the phase to [success]
    and adds the current level to [completedLevels]; the set grows by at
    most that one index, and later frames add nothing, the phase being no
    longer [flying]. *)
Theorem goal_capture (w : World) (pos g : Vector3) :
  reachable w ->
  gameState w = flying ->
  spacecraft w = Some pos ->
  goal w = Some g ->
  existsb (hits crash_hit_distance pos) (planets w) = false ->
  (THREE.distanceTo (next_position w pos) g <? 3) = true ->
  GOAL_RADIUS * 1.2 = 3 /\
  gameState (animate w) = success /\
  head (snd (animate_trace w)) = Some success /\
  completedLevels (animate w) = {[ currentLevel w ]} ∪ completedLevels w /\
  (forall n, frames n (animate w) = animate w) /\
  (forall n, size (completedLevels (frames n (animate w))) =
     if decide (currentLevel w ∈ completedLevels w)
     then size (completedLevels w) else S (size (completedLevels w))).
Proof.
  intros Hreach Hfly Hcraft Hgoal Hmiss Hnear.
  assert (Hthree : GOAL_RADIUS * 1.2 = 3) by (vm_compute; reflexivity).
  assert (Hreached : goal_reached (goal w) (next_position w pos) = true).
  { rewrite Hgoal. unfold goal_reached. by rewrite Hthree. }
  destruct (animate_trace_outcome w pos Hfly Hcraft) as [Hphase Htrace].
  { intros _. by apply (reachable_goal_excludes_bounds w). }
  assert (Hout : frame_outcome w pos = success).
  { unfold frame_outcome. by rewrite Hmiss, Hreached. }
  rewrite Hout in Hphase, Htrace.
  assert (Hdone : completedLevels (animate w) = {[ currentLevel w ]} ∪ completedLevels w).
  { unfold animate, animate_trace.
    rewrite Hfly, Hcraft, gravity_loop_foldl, Hmiss.
    fold (accelerationAt pos (planets w)).
    unfold check_goal, check_bounds, integrate. simpl.
    change flight_dt with 0.016. unfold THREE.clone.
    fold (next_velocity w pos). fold (next_position w pos).
    rewrite Hreached. simpl. by destruct (out_of_bounds _). }
  assert (Hstay : forall n, frames n (animate w) = animate w).
  { intros n. apply frames_not_flying. by rewrite Hphase. }
  repeat split; try done.
  - by rewrite Htrace.
  - intros n. rewrite Hstay, Hdone. apply size_add_level.
Qed.

(** C10. [completedLevels] only grows: over any sequence of events it
    keeps every index it held, and a single event either leaves it as it
    is or is a frame that reaches the goal and adds the current level. *)
Theorem completedLevels_only_grow (events : list Event) (w : World) :
  completedLevels w ⊆ completedLevels (run events w) /\
  (forall e,
     completedLevels (handle e w) = completedLevels w \/
     (e = Frame /\ gameState w = flying /\
      head (snd (animate_trace w)) = Some success /\
      completedLevels (handle e w) = {[ currentLevel w ]} ∪ completedLevels w)).
Proof.
  split; [|intros e; apply handle_completedLevels].
  revert w. unfold run. induction events as [|e events IH]; intros w; simpl; [done|].
  etrans; [|apply IH].
  destruct (handle_completedLevels e w) as [->|(_ & _ & _ & ->)]; set_solver.
Qed.

(** ** Retry, level switch and the attempts counter *)

Lemma retryLevel_game_view (w : World) (level : Level) :
  LEVELS !! currentLevel w = Some level ->
  showMenu w = false -> showLevelSelect w = false ->
  retryLevel w =
  initLevel (currentLevel w)
    (write_effectTracksLevelSelect true (write_retryCounter (retryCounter w + 1) w)).
Proof.
  intros Hlevel Hmenu Hselect. unfold retryLevel, setRetryCounter.
  case_decide; [lia|].
  destruct (levelEffect_cases (write_retryCounter (retryCounter w + 1) w))
    as [[[Hopen|Hnone] _]|(_ & _ & _ & _ & ->)]; world_simpl; [|congruence|done].
  by rewrite Hmenu, Hselect in Hopen.
Qed.

Lemma nextLevel_game_view (w : World) (next : Level) :
  LEVELS !! (currentLevel w + 1)%nat = Some next ->
  showMenu w = false -> showLevelSelect w = false ->
  nextLevel w =
  initLevel (currentLevel w + 1)
    (write_effectTracksLevelSelect true (write_currentLevel (currentLevel w + 1) w)).
Proof.
  intros Hnext Hmenu Hselect. unfold nextLevel.
  apply lookup_lt_Some in Hnext.
  destruct (Nat.ltb_spec (currentLevel w) (length LEVELS - 1)) as [_|?]; [|lia].
  unfold setCurrentLevel. case_decide; [lia|].
  destruct (levelEffect_cases (write_currentLevel (currentLevel w + 1) w))
    as [[[Hopen|Hnone] _]|(_ & _ & _ & _ & ->)]; world_simpl; [| |done].
  - by rewrite Hmenu, Hselect in Hopen.
  - apply lookup_ge_None_1 in Hnone. lia.
Qed.

Lemma selectLevel_level_grid (index : nat) (level : Level) (w : World) :
  LEVELS !! index = Some level ->
  showMenu w = false -> showLevelSelect w = true ->
  effectTracksLevelSelect w = true ->
  exists w0,
    selectLevel index w = setAttempts 0 (initLevel index w0) /\
    same_aim w w0 /\ currentLevel w0 = index.
Proof.
  intros Hlevel Hmenu Hselect Htracks. unfold selectLevel, setShowLevelSelect.
  rewrite Hselect, Htracks. case_decide; [done|].
  set (w1 := levelEffect (write_showLevelSelect false w)).
  assert (Hw1 : showMenu w1 = false /\ showLevelSelect w1 = false /\ same_aim w w1 /\
                (currentLevel w1 = currentLevel w) /\
                forall l, LEVELS !! currentLevel w = Some l ->
                  w1 = initLevel (currentLevel w)
                         (write_effectTracksLevelSelect true (write_showLevelSelect false w))).
  { unfold w1.
    destruct (levelEffect_cases (write_showLevelSelect false w))
      as [[[Hopen|Hnone] ->]|(_ & _ & l & Hl & ->)]; world_simpl.
    - by rewrite Hmenu in Hopen.
    - rewrite Hmenu. repeat split; try done. intros l Hl. congruence.
    - rewrite (initLevel_Some _ l) by done. world_simpl.
      repeat split; try done; intros l' Hl'; by rewrite (initLevel_Some _ l'). }
  destruct Hw1 as (Hmenu1 & Hselect1 & Haim1 & Hcur1 & Hinit1).
  unfold setCurrentLevel. case_decide as Hsame.
  - rewrite Hcur1 in Hsame. subst index.
    eexists. split; [by rewrite (Hinit1 level Hlevel)|]. done.
  - destruct (levelEffect_cases (write_currentLevel index w1))
      as [[[Hopen|Hnone] _]|(_ & _ & _ & _ & ->)]; world_simpl.
    + by rewrite Hmenu1, Hselect1 in Hopen.
    + congruence.
    + eexists. split; [reflexivity|].
      unfold same_aim in *. world_simpl. done.
Qed.

(** C3, as amended. The attempts counter goes up by exactly one each time
    a level is initialised: on entering the next level, and just the same
    on every retry of the current level. *)
Theorem attempts_count_initialisations (w : World) (level : Level) :
  LEVELS !! currentLevel w = Some level ->
  showMenu w = false ->
  showLevelSelect w = false ->
  attempts (initLevel (currentLevel w) w) = (attempts w + 1)%Z /\
  attempts (retryLevel w) = (attempts w + 1)%Z /\
  currentLevel (retryLevel w) = currentLevel w /\
  (forall next, LEVELS !! (currentLevel w + 1)%nat = Some next ->
     attempts (nextLevel w) = (attempts w + 1)%Z).
Proof.
  intros Hlevel Hmenu Hselect.
  rewrite (retryLevel_game_view w level) by done.
  rewrite (initLevel_Some _ level w) by done.
  rewrite (initLevel_Some _ level (write_effectTracksLevelSelect true _)) by done.
  repeat split; try done.
  intros next Hnext.
  by rewrite (nextLevel_game_view w next), (initLevel_Some _ next).
Qed.

(** C8, as amended. Retrying or switching levels with the game view open
    discards the current Run outright and starts a fresh one: craft at the
    level's start, at rest, empty trail, the level's planets and goal,
    phase [aiming]. *)
Theorem reset_replaces_run (w : World) :
  reachable w ->
  showMenu w = false ->
  (showLevelSelect w = false ->
     exists level, LEVELS !! currentLevel w = Some level /\
       fresh_run level (retryLevel w)) /\
  (showLevelSelect w = false ->
     forall level, LEVELS !! (currentLevel w + 1)%nat = Some level ->
       fresh_run level (nextLevel w) /\
       currentLevel (nextLevel w) = (currentLevel w + 1)%nat) /\
  (showLevelSelect w = true ->
     forall index level, LEVELS !! index = Some level ->
       fresh_run level (selectLevel index w) /\
       currentLevel (selectLevel index w) = index).
Proof.
  intros Hreach Hmenu. pose proof (reachable_invariant w Hreach) as Hinv.
  split; [|split].
  - intros Hselect.
    destruct (lookup_lt_is_Some_2 LEVELS _ (inv_level w Hinv)) as [level Hlevel].
    exists level. split; [done|].
    rewrite (retryLevel_game_view w level) by done.
    by destruct (initLevel_fresh (currentLevel w) level
      (write_effectTracksLevelSelect true
         (write_retryCounter (retryCounter w + 1) w)) Hlevel).
  - intros Hselect level Hlevel.
    rewrite (nextLevel_game_view w level) by done.
    split.
    + by destruct (initLevel_fresh (currentLevel w + 1) level
        (write_effectTracksLevelSelect true
           (write_currentLevel (currentLevel w + 1) w)) Hlevel).
    + by rewrite (initLevel_Some _ level).
  - intros Hselect index level Hlevel.
    assert (Htracks : effectTracksLevelSelect w = true)
      by (by rewrite (inv_tracks w Hinv), Hmenu).
    destruct (selectLevel_level_grid index level w)
      as (w0 & -> & Haim & Hcur); try done.
    destruct (initLevel_fresh index level w0 Hlevel) as [Hfresh _].
    split; [exact Hfresh|].
    rewrite (initLevel_Some _ level) by done. exact Hcur.
Qed.

(** The branches that stand for a TypeError of the source are dead: in a
    reachable world the current level is in the catalogue, and a drag is
    only in progress once a spacecraft exists. *)
Lemma reachable_currentLevel (w : World) :
  reachable w ->
  is_Some (LEVELS !! currentLevel w) /\
  (isDragging w = true -> is_Some (spacecraft w)).
Proof.
  intros Hreach. pose proof (reachable_invariant w Hreach) as Hinv. split.
  - apply lookup_lt_is_Some_2, (inv_level w Hinv).
  - intros Hdrag.
    destruct (inv_aiming w Hinv (inv_drag w Hinv Hdrag))
      as [(level & _ & -> & _)|[_ ?]]; [done|congruence].
Qed.

End Claims.

(** ** Worked examples *)

Section Examples.
#[local] Existing Instance axisMath.

(** Releasing a pull of 20 launches at [(10, 0, 0)]; releasing a pull of
    1.5 leaves the craft aiming and at rest. *)
Lemma release_launches_or_cancels_witness :
  (spacecraftVelocity (onMouseUp aimed_world) = THREE.mkVector3 10 0 0 /\
   gameState (onMouseUp aimed_world) = flying) /\
  (gameState (onMouseUp timid_world) = aiming /\
   spacecraftVelocity (onMouseUp timid_world) = THREE.mkVector3 0 0 0).
Proof.
  split.
  - destruct (release_launches_or_cancels aimed_world) as [Hlaunch _];
      [vm_compute; reflexivity..|].
    apply Hlaunch. vm_compute. reflexivity.
  - destruct (release_launches_or_cancels timid_world) as [_ Hcancel];
      [vm_compute; reflexivity..|].
    destruct Hcancel as (Hphase & _ & Hrest); [vm_compute; reflexivity..|].
    split; [exact Hphase|]. apply Hrest. vm_compute. reflexivity.
Defined.

Lemma launched_world_reachable : reachable launched_world.
Proof. apply reachable_run; [apply reachable_init|]. repeat constructor. Qed.

Lemma approach_world_reachable : reachable approach_world.
Proof. apply reachable_frames, launched_world_reachable. Qed.

(** After 101 frames of the straight shot the trail holds the last 100 of
    the 101 positions taken. *)
Lemma trail_is_recent_history_witness :
  let history := trailPositions launched_world ++ flight_path 101 launched_world in
  length (flight_path 101 launched_world) = 101%nat /\
  trailPositions (frames 101 launched_world) = drop (length history - 100) history /\
  (length (trailPositions (frames 101 launched_world)) ≤ 100)%nat /\
  ((100 < 101)%nat -> length (trailPositions (frames 101 launched_world)) = 100%nat).
Proof.
  apply (trail_is_recent_history 101 launched_world).
  - apply Nat.le_0_l.
  - discriminate.
  - intros k Hk.
    do 102 (destruct k as [|k]; [vm_compute; reflexivity|]). lia.
Defined.

(** The frame that captures the goal writes [success], once. *)
Lemma one_transition_per_frame_witness :
  gameState (animate approach_world) = success /\
  snd (animate_trace approach_world) = [success] /\
  (length (snd (animate_trace approach_world)) ≤ 1)%nat.
Proof.
  destruct (one_transition_per_frame approach_world approach_world_reachable)
    as (Hframe & Hlength & _ & _).
  destruct (Hframe (THREE.mkVector3 16.959999999999994 0 0)) as [Hphase Htrace];
    [vm_compute; reflexivity..|].
  split; [|split]; [exact Hphase|exact Htrace|exact Hlength].
Defined.

(** The same frame records level 0, and ten frames later the set still
    has that one entry. *)
Lemma goal_capture_witness :
  gameState (animate approach_world) = success /\
  completedLevels (animate approach_world) = {[ 0%nat ]} ∪ ∅ /\
  size (completedLevels (frames 10 (animate approach_world))) = 1%nat.
Proof.
  destruct (goal_capture approach_world (THREE.mkVector3 16.959999999999994 0 0)
              (THREE.mkVector3 20 0 0) approach_world_reachable)
    as (_ & Hphase & _ & Hdone & _ & Hsize); [vm_compute; reflexivity..|].
  split; [exact Hphase|]. split; [exact Hdone|]. exact (Hsize 10%nat).
Defined.

(** C3, counterexample. Retrying the level just entered leaves the level
    index alone and raises the attempts counter by one. *)
Lemma retry_increments_attempts :
  currentLevel (retryLevel (startGame initialWorld)) =
    currentLevel (startGame initialWorld) /\
  attempts (retryLevel (startGame initialWorld)) =
    (attempts (startGame initialWorld) + 1)%Z /\
  attempts (retryLevel (startGame initialWorld)) <>
    attempts (startGame initialWorld).
Proof. vm_compute. repeat split; discriminate. Qed.

(** Initialising, retrying and moving on each add one attempt. *)
Lemma attempts_count_initialisations_witness :
  attempts (initLevel 0 (startGame initialWorld)) =
    (attempts (startGame initialWorld) + 1)%Z /\
  attempts (retryLevel (startGame initialWorld)) =
    (attempts (startGame initialWorld) + 1)%Z /\
  attempts (nextLevel (startGame initialWorld)) =
    (attempts (startGame initialWorld) + 1)%Z.
Proof.
  destruct (attempts_count_initialisations (startGame initialWorld)
              (mkLevel (mkPoint2 (-20) 0) (mkPoint2 20 0) []))
    as (Hinit & Hretry & _ & Hnext); [vm_compute; reflexivity..|].
  split; [exact Hinit|]. split; [exact Hretry|].
  apply (Hnext (mkLevel (mkPoint2 (-25) 0) (mkPoint2 25 0)
                  [mkPlanetData 0 (-12) 400 2.5])).
  vm_compute. reflexivity.
Defined.

Lemma aimed_world_reachable : reachable aimed_world.
Proof. apply reachable_run; [apply reachable_init|]. repeat constructor. Qed.

(** C8, counterexample. A drag in progress survives a retry: the fresh
    run is still dragging with power 20, and releasing the pointer
    launches it with the aim taken before the reset.  And a retry made
    while the menu covers the game (the success dialog stays on top of it)
    leaves the finished Run in place. *)
Lemma aim_survives_retry :
  (isDragging (retryLevel aimed_world) = true /\
   launchPower (retryLevel aimed_world) = 20 /\
   gameState (retryLevel aimed_world) = aiming /\
   gameState (onMouseUp (retryLevel aimed_world)) = flying /\
   spacecraftVelocity (onMouseUp (retryLevel aimed_world)) = THREE.mkVector3 10 0 0) /\
  (gameState (frames 155 (openMenu launched_world)) = success /\
   gameState (retryLevel (frames 155 (openMenu launched_world))) = success /\
   spacecraft (retryLevel (frames 155 (openMenu launched_world))) =
     Some (THREE.mkVector3 17.199999999999992 0 0)).
Proof. vm_compute. repeat split. Qed.

(** Retry and next level, from a world with a drag in progress, both end
    in the fresh Run of their level. *)
Lemma reset_replaces_run_witness :
  fresh_run (mkLevel (mkPoint2 (-20) 0) (mkPoint2 20 0) []) (retryLevel aimed_world) /\
  fresh_run (mkLevel (mkPoint2 (-25) 0) (mkPoint2 25 0) [mkPlanetData 0 (-12) 400 2.5])
    (nextLevel aimed_world).
Proof.
  destruct (reset_replaces_run aimed_world aimed_world_reachable)
    as (Hretry & Hnext & _); [vm_compute; reflexivity|].
  split.
  - destruct Hretry as (level & Hlevel & Hfresh); [vm_compute; reflexivity|].
    vm_compute in Hlevel. by injection Hlevel as <-.
  - apply Hnext; vm_compute; reflexivity.
Defined.

(** The attempts counter right after [startGame]: the effect has run
    [initLevel] by the time the handler writes [setAttempts(0)]. *)
Example attempts_after_startGame :
  attempts (startGame initialWorld) = 0%Z /\
  attempts (retryLevel (startGame initialWorld)) = 1%Z.
Proof. vm_compute. done. Qed.

(** Off the catalogue the goal check and the bounds check can both apply
    in one frame: with the goal moved to [(56, 0)], a craft arriving at
    x = 55.14 is within 3 of it and past the bound 55, and the frame
    writes [success], then [failed].  That a frame writes the phase at most
    once rests on the goals of [LEVELS] lying well inside the play area. *)
Example goal_and_bounds_off_catalogue :
  snd (animate_trace
         (write_goal (Some (THREE.mkVector3 56 0 0))
            (write_spacecraft (Some (THREE.mkVector3 54.9 0 0)) launched_world)))
  = [success; failed].
Proof. vm_compute. reflexivity. Qed.

End Examples.

(** * Further properties *)

(** ** More on binary64 values *)

Section MoreMagnitudes.
#[local] Open Scope Z_scope.

(** A sum of non-negative values is NaN or non-negative. *)
Lemma SFadd_nonneg a b :
  nan_or nonneg a -> nan_or nonneg b -> nan_or nonneg (SF64add a b).
Proof.
  intros [->|Ha] Hb; [by left|].
  destruct Hb as [->|Hb]; [left; by destruct a|].
  destruct a as [sa|sa| |sa ma ea]; simpl in Ha; try tauto; destruct sa; try tauto;
    destruct b as [sb|sb| |sb mb eb]; simpl in Hb; try tauto; destruct sb; try tauto;
    try (right; exact I).
  unfold SF64add, SFadd. cbn [cond_Zopp].
  rewrite <- Pos2Z.inj_add. cbn [binary_normalize]. unfold binary_round.
  destruct (shl_align _ _ _) as [mz ez].
  pose proof (binary_round_aux_sign false (Zpos mz) ez loc_Exact) as Hs.
  destruct (binary_round_aux _ _ _ _ _ _) as [s|s| |s m e];
    [right; by subst|right; by subst|by left|right; by subst].
Qed.

(** A square root is NaN, a zero or positive. *)
Lemma SFsqrt_sign f :
  match SF64sqrt f with
  | S754_infinity s | S754_finite s _ _ => s = false
  | _ => True
  end.
Proof.
  destruct f as [s|[]| |[] m e]; simpl; try done.
  unfold SFsqrt_core_binary.
  destruct (Z.sqrtrem _) as [q r].
  pose proof (binary_round_aux_sign false q
    (Z.min (fexp prec emax (Z.div2 (Zdigits2 (Zpos m) + e + 1))) (Z.div2 e))
    (if r =? 0 then loc_Exact else loc_Inexact (if r <=? q then Lt else Gt))) as Hs.
  by destruct (binary_round_aux _ _ _ _ _ _).
Qed.

Lemma SFsqrt_nonneg f : nan_or nonneg f -> nan_or nonneg (SF64sqrt f).
Proof.
  intros [->|Hf]; [by left|].
  pose proof (SFsqrt_sign f) as Hs.
  destruct f as [[]|[]| |[] m e]; simpl in Hf; try tauto;
    try (right; exact I).
  destruct (SF64sqrt (S754_finite false m e)) as [s|s| |s m' e'] eqn:Hr;
    [|right; by subst|by left|right; by subst].
  (* a zero result of a positive argument keeps the sign it was rounded with *)
  revert Hr. unfold SF64sqrt, SFsqrt, SFsqrt_core_binary.
  destruct (Z.sqrtrem _) as [q r].
  intros Hr.
  pose proof (binary_round_aux_sign false q
    (Z.min (fexp prec emax (Z.div2 (Zdigits2 (Zpos m) + e + 1))) (Z.div2 e))
    (if r =? 0 then loc_Exact else loc_Inexact (if r <=? q then Lt else Gt))) as Hs'.
  rewrite Hr in Hs'. right. by subst.
Qed.

(** NaN or non-negative values are NaN or at least zero. *)
Lemma nonneg_leb_zero f :
  nan_or nonneg f -> f = S754_nan \/ SFleb (S754_zero false) f = true.
Proof.
  intros [->|Hf]; [by left|right].
  by destruct f as [[]|[]| |[] m e].
Qed.

(** A valid value of at least [2^6] is at least 64. *)
Lemma big_leb_64 f :
  valid_binary f = true -> big 6 f ->
  SFleb (S754_finite false 4503599627370496 (-46)) f = true.
Proof.
  intros Hv [Hf Hp].
  destruct f as [s|s| |s m e]; simpl in Hf, Hp; try tauto; destruct s; try tauto.
  apply valid_binary_dg in Hv as (Hd & He & Hn).
  unfold SFleb, SFcompare.
  destruct (Z.compare_spec (-46) e) as [Heq|Hlt|Hgt]; [|reflexivity|lia].
  assert (Hm : 2 ^ 52 <= Zpos m).
  { destruct (dg_bounds m) as [Hlo _]. rewrite Hn in Hlo by lia. exact Hlo. }
  change (Pos.compare_cont Eq 4503599627370496 m) with (Pos.compare 4503599627370496 m).
  destruct (Pos.compare_spec 4503599627370496 m) as [_|_|Hlt];
    [reflexivity|reflexivity|exfalso].
  apply Pos2Z.pos_lt_pos in Hlt.
  exact (Z.lt_irrefl _ (Z.lt_le_trans _ _ _ Hlt Hm)).
Qed.

Lemma SFcompare_refl f : f <> S754_nan -> SFcompare f f = Some Eq.
Proof.
  destruct f as [s|[]| |[] m e]; simpl; try done; intros _;
    rewrite ?Z.compare_refl, ?Pos.compare_cont_refl; reflexivity.
Qed.

End MoreMagnitudes.

(** [is_nan] tells NaN apart. *)
Lemma is_nan_spec (a : float) : is_nan a = true <-> Prim2SF a = S754_nan.
Proof.
  unfold is_nan. rewrite FloatAxioms.eqb_spec. unfold SFeqb. split.
  - intros Hn. destruct (Prim2SF a) eqn:Ha; try done;
      rewrite SFcompare_refl in Hn; done.
  - by intros ->.
Qed.

(** Adding zero leaves every value but the negative zero as it is. *)
Lemma add_zero_r (a : float) : Prim2SF a <> S754_zero true -> a + 0 = a.
Proof.
  intros Ha. apply Prim2SF_inj. rewrite add_spec.
  change (Prim2SF 0) with (S754_zero false).
  by destruct (Prim2SF a) as [[]|[]| |s m e].
Qed.

(** [Math.min(a, 30)] never exceeds 30. *)
Lemma Math_min_30 (a : float) :
  is_nan (Math_min a 30) = true \/ (Math_min a 30 <=? 30) = true.
Proof.
  unfold Math_min. destruct (is_nan a) eqn:Hnan; simpl; [by left|right].
  assert (Hc : SFcompare (Prim2SF a) (Prim2SF 30) <> None).
  { assert (Prim2SF a <> S754_nan)
      by (intros Hn; apply is_nan_spec in Hn; congruence).
    change (Prim2SF 30) with (S754_finite false 8444249301319680 (-48)).
    by destruct (Prim2SF a) as [[]|[]| |[] m e]. }
  rewrite !ltb_spec. unfold SFltb.
  rewrite (SFcompare_antisym (Prim2SF a) (Prim2SF 30)).
  destruct (SFcompare (Prim2SF a) (Prim2SF 30)) as [[]|] eqn:Hcmp; simpl; try done.
  - destruct (is_zero a && get_sign a); [|done].
    rewrite leb_spec. unfold SFleb. by rewrite Hcmp.
  - rewrite leb_spec. unfold SFleb. by rewrite Hcmp.
Qed.

(** [Math.min(a, 30)] of a NaN-or-non-negative [a] is NaN or at least 0. *)
Lemma Math_min_30_nonneg (a : float) :
  nan_or nonneg (Prim2SF a) ->
  is_nan (Math_min a 30) = true \/ (0 <=? Math_min a 30) = true.
Proof.
  intros Ha. unfold Math_min.
  destruct (is_nan a) eqn:Hnan; simpl; [by left|right].
  assert (Hle : (0 <=? a) = true).
  { rewrite leb_spec. change (Prim2SF 0) with (S754_zero false).
    destruct (nonneg_leb_zero _ Ha) as [Hn|?]; [|done].
    apply is_nan_spec in Hn. congruence. }
  repeat case_match; done.
Qed.

(** ** The play invariant holds in every reachable world *)

(** Every level starts inside the play area and outside its goal disc. *)
Lemma catalogue_starts (level : Level) :
  level ∈ LEVELS ->
  out_of_bounds (level_start level) = false /\
  goal_reached
    (Some (createGoal (p_x (level_goal level)) (p_y (level_goal level))))
    (level_start level) = false.
Proof.
  unfold LEVELS. rewrite !elem_of_cons, elem_of_nil.
  intros [->|[->|[->|[->|[->|[->|[->|[]]]]]]]]; vm_compute; done.
Qed.

Lemma power_in_range_0 : power_in_range 0.
Proof. right. vm_compute. done. Qed.

Lemma play_invariant_initialWorld : play_invariant initialWorld.
Proof.
  constructor; try done.
  apply power_in_range_0.
Qed.

(** Re-running the level effect after a write to one of its signals. *)
Lemma play_invariant_levelEffect (w w' : World) :
  play_invariant w ->
  (currentLevel w' < length LEVELS)%nat ->
  gameState w' = gameState w -> isDragging w' = isDragging w ->
  launchPower w' = launchPower w -> completedLevels w' = completedLevels w ->
  spacecraft w' = spacecraft w -> goal w' = goal w ->
  attempts w' = attempts w ->
  play_invariant (levelEffect w').
Proof.
  intros [Hdone Hidle Hrange Hsync Hinside Hatt Hsucc]
    Hlevel' Hphase Hdrag Hpower Hcompleted Hcraft Hgoal Hattempts.
  destruct (levelEffect_cases w') as [[Hopen ->]|(Hmenu & Hselect & level & Hl & ->)].
  - assert (Hmenus : (showMenu w' || showLevelSelect w') = true).
    { destruct Hopen as [?|Hnone]; [done|].
      apply lookup_ge_None_1 in Hnone. lia. }
    constructor; world_simpl;
      rewrite ?Hphase, ?Hdrag, ?Hpower, ?Hcompleted, ?Hcraft, ?Hgoal, ?Hattempts;
      try done.
    + intros Hm Hs. by rewrite Hm, Hs in Hmenus.
    + intros Hm Hs. by rewrite Hm, Hs in Hmenus.
  - rewrite (initLevel_Some _ level) by done.
    constructor; world_simpl; rewrite ?Hdrag, ?Hpower, ?Hcompleted, ?Hattempts;
      try done; [|lia].
    intros _ _. by exists level.
Qed.

Lemma play_invariant_setShowMenu (v : bool) (w : World) :
  invariant w -> play_invariant w -> play_invariant (setShowMenu v w).
Proof.
  intros Hinv Hplay. unfold setShowMenu. case_decide; [done|].
  apply (play_invariant_levelEffect w); try done. apply Hinv.
Qed.

Lemma play_invariant_setCurrentLevel (v : nat) (w : World) :
  (v < length LEVELS)%nat -> play_invariant w ->
  play_invariant (setCurrentLevel v w).
Proof.
  intros Hv Hplay. unfold setCurrentLevel. case_decide; [done|].
  by apply (play_invariant_levelEffect w).
Qed.

Lemma play_invariant_setRetryCounter (v : Z) (w : World) :
  invariant w -> play_invariant w -> play_invariant (setRetryCounter v w).
Proof.
  intros Hinv Hplay. unfold setRetryCounter. case_decide; [done|].
  apply (play_invariant_levelEffect w); try done. apply Hinv.
Qed.

Lemma play_invariant_setShowLevelSelect (v : bool) (w : World) :
  invariant w -> play_invariant w -> play_invariant (setShowLevelSelect v w).
Proof.
  intros Hinv Hplay. unfold setShowLevelSelect. case_decide; [done|].
  destruct (effectTracksLevelSelect w) eqn:Htracks.
  { apply (play_invariant_levelEffect w); try done. apply Hinv. }
  pose proof (inv_tracks w Hinv) as Htr. rewrite Htracks in Htr.
  destruct Hplay as [Hdone Hidle Hrange Hsync Hinside Hatt Hsucc].
  constructor; world_simpl; try done; intros Hm; by rewrite Hm in Htr.
Qed.

Lemma play_invariant_setAttempts (v : Z) (w : World) :
  (0 <= v)%Z -> play_invariant w -> play_invariant (setAttempts v w).
Proof. intros ? [? ? ? ? ? ? ?]. by constructor. Qed.

Lemma play_invariant_game_complete (w : World) :
  play_invariant w -> play_invariant (setShowMenu true (setGameState aiming w)).
Proof.
  intros [Hdone Hidle Hrange Hsync Hinside Hatt Hsucc].
  unfold setShowMenu. world_simpl. case_decide as Hmenu.
  - constructor; world_simpl; try done; intros; congruence.
  - destruct (levelEffect_cases (write_showMenu true (setGameState aiming w)))
      as [[_ ->]|(Hm & _)]; [|done].
    constructor; world_simpl; done.
Qed.

(** The scene stays the one of the current level over a write that leaves
    the phase other than [aiming]. *)
Ltac synced_past_aiming Hsync :=
  let Hm := fresh "Hm" in
  let Hs := fresh "Hs" in
  let level := fresh "level" in
  let Hl := fresh "Hl" in
  let Hsc := fresh "Hsc" in
  intros Hm Hs; destruct (Hsync Hm Hs) as (level & Hl & Hsc & _);
  exists level; split; [exact Hl|split; [exact Hsc|intros; congruence]].

Lemma play_invariant_animate (w : World) :
  invariant w -> play_invariant w -> play_invariant (animate w).
Proof.
  intros Hinv Hplay. unfold animate, animate_trace.
  destruct (gameState w) eqn:Hphase; try done.
  destruct (spacecraft w) as [pos|] eqn:Hcraft; [|done].
  destruct Hplay as [Hdone Hidle Hrange Hsync Hinside Hatt Hsucc].
  destruct (gravity_loop _ _ _ _) as [acc|];
    [|cbn [fst]; constructor; world_simpl; try done; synced_past_aiming Hsync].
  unfold check_goal, check_bounds, integrate. world_simpl.
  assert (Hadd : forall i, i ∈ ({[ currentLevel w ]} ∪ completedLevels w : gset nat) ->
                           (i < length LEVELS)%nat).
  { intros i [->%elem_of_singleton|?]%elem_of_union; [apply Hinv|by apply Hdone]. }
  destruct (goal_reached _ _) eqn:Hgoal; cbn [fst snd]; world_simpl;
    destruct (out_of_bounds _) eqn:Hout; cbn [fst snd]; world_simpl;
    constructor; world_simpl; rewrite ?Hphase; try done;
    try synced_past_aiming Hsync.
  - intros _ _ _. apply elem_of_union_l. by apply elem_of_singleton.
  - intros _. eexists. split; [reflexivity|]. by rewrite Hout, Hgoal.
Qed.

Section ReachablePlay.
Context `{MathLib}.

Lemma play_invariant_onMouseDown (w : World) :
  play_invariant w -> play_invariant (onMouseDown w).
Proof.
  intros Hplay. unfold onMouseDown.
  destruct (showMenu w || showLevelSelect w ||
            negb (bool_decide (gameState w = aiming))); [done|].
  destruct Hplay as [? ? ? ? ? ? ?]. by constructor.
Qed.

Lemma play_invariant_onMouseMove (p : Vector3) (w : World) :
  play_invariant w -> play_invariant (onMouseMove p w).
Proof.
  intros Hplay. unfold onMouseMove.
  destruct (isDragging w) eqn:Hdrag; [|done]. cbn [negb orb].
  destruct (negb (bool_decide (gameState w = aiming))); [done|].
  destruct (spacecraft w) as [craft|]; [|done].
  destruct Hplay as [Hdone Hidle Hrange Hsync Hinside Hatt Hsucc].
  constructor; world_simpl; try done; [congruence|].
  set (s := (THREE.x craft - THREE.x p) * (THREE.x craft - THREE.x p) +
            (THREE.y craft - THREE.y p) * (THREE.y craft - THREE.y p)).
  assert (Hs : nan_or nonneg (Prim2SF (sqrt s))).
  { rewrite sqrt_spec. apply SFsqrt_nonneg. unfold s. rewrite add_spec.
    apply SFadd_nonneg; apply square_nonneg. }
  destruct (Math_min_30 (sqrt s)) as [?|Hhi]; [by left|].
  destruct (Math_min_30_nonneg (sqrt s) Hs) as [?|Hlo]; [by left|by right].
Qed.

Lemma play_invariant_onMouseUp (w : World) :
  invariant w -> play_invariant w -> play_invariant (onMouseUp w).
Proof.
  intros Hinv Hplay. unfold onMouseUp.
  destruct (isDragging w) eqn:Hd; [|done]. cbn [negb orb].
  case_bool_decide as Haim; [|done]. cbn [negb]. world_simpl.
  destruct Hplay as [Hdone Hidle Hrange Hsync Hinside Hatt Hsucc].
  destruct (inv_aiming w Hinv Haim) as [(level & Hin & Hfresh)|[_ ?]]; [|congruence].
  destruct Hfresh as (Hcraft & _ & _ & _ & Hgoal & _).
  destruct (catalogue_starts level Hin) as [Hbounds Hfar].
  destruct (gtb (launchPower w) 2); world_simpl;
    constructor; world_simpl; rewrite ?Haim; try done;
    try apply power_in_range_0; try synced_past_aiming Hsync.
  - intros _. exists (level_start level). by rewrite Hcraft, Hgoal.
  - intros Hm Hs. destruct (Hsync Hm Hs) as (current & Hl & Hsc & Hfr).
    exists current. split; [done|]. split; [done|]. intros _. by apply Hfr.
Qed.

Lemma play_invariant_handle (e : Event) (w : World) :
  enabled e -> invariant w -> play_invariant w -> play_invariant (handle e w).
Proof.
  intros He Hinv Hplay. destruct e; simpl in *.
  - by apply play_invariant_onMouseDown.
  - by apply play_invariant_onMouseMove.
  - by apply play_invariant_onMouseUp.
  - by apply play_invariant_animate.
  - unfold startGame.
    apply play_invariant_setAttempts; [done|].
    apply play_invariant_setCurrentLevel; [simpl; lia|].
    by apply play_invariant_setShowMenu.
  - unfold nextLevel. simpl length.
    destruct (Nat.ltb_spec (currentLevel w) (7 - 1)) as [Hlt|_].
    + apply play_invariant_setCurrentLevel; [simpl; lia|done].
    + by apply play_invariant_game_complete.
  - unfold retryLevel. by apply play_invariant_setRetryCounter.
  - unfold openLevelSelect.
    apply play_invariant_setShowMenu;
      [by apply invariant_setShowLevelSelect|by apply play_invariant_setShowLevelSelect].
  - unfold selectLevel.
    apply play_invariant_setAttempts; [done|].
    apply play_invariant_setCurrentLevel; [done|].
    by apply play_invariant_setShowLevelSelect.
  - unfold backToMenu.
    apply play_invariant_setShowMenu;
      [by apply invariant_setShowLevelSelect|by apply play_invariant_setShowLevelSelect].
  - unfold openMenu. by apply play_invariant_setShowMenu.
Qed.

Lemma reachable_play_invariant (w : World) : reachable w -> play_invariant w.
Proof.
  induction 1 as [|e w Hw IH He]; [apply play_invariant_initialWorld|].
  apply play_invariant_handle; [done| |done]. by apply reachable_invariant.
Qed.

End ReachablePlay.

(** ** The game in every reachable world *)

Section FurtherProperties.
Context `{MathLib}.

(** X1. A drag is only ever in progress while aiming, and then over the
    fresh run of a level: the craft rests at the level's start with an
    empty trail.  ([onMouseDown] starts a drag only while aiming with the
    game view open, and nothing moves the craft before the release.) *)
Theorem drag_only_over_fresh_run (w : World) :
  reachable w -> isDragging w = true ->
  gameState w = aiming /\ exists level, level ∈ LEVELS /\ fresh_run level w.
Proof.
  intros Hreach Hdrag. pose proof (reachable_invariant w Hreach) as Hinv.
  pose proof (inv_drag w Hinv Hdrag) as Haim. split; [exact Haim|].
  destruct (inv_aiming w Hinv Haim) as [Hfresh|[_ Hidle]]; [exact Hfresh|].
  congruence.
Qed.

(** X2. Every index recorded in [completedLevels] is an index of [LEVELS],
    so the "Completed n/7" counter of the game view never shows more
    levels than the catalogue has. *)
Theorem completed_count_bounded (w : World) :
  reachable w ->
  (forall i, i ∈ completedLevels w -> is_Some (LEVELS !! i)) /\
  (size (completedLevels w) <= length LEVELS)%nat.
Proof.
  intros Hreach. pose proof (reachable_play_invariant w Hreach) as Hplay.
  pose proof (play_completed w Hplay) as Hdone. split.
  - intros i Hi. apply lookup_lt_is_Some_2. by apply Hdone.
  - rewrite <- (size_set_seq (C := gset nat) 0 (length LEVELS)).
    apply subseteq_size. intros i Hi. apply elem_of_set_seq.
    split; [lia|]. simpl. by apply Hdone.
Qed.

(** X3. The trail never holds more than [MAX_TRAIL_LENGTH] positions, in
    any reachable world: the 300 floats of the trail line's buffer always
    suffice. *)
Theorem trail_within_capacity (w : World) :
  reachable w ->
  (length (trailPositions w) <= MAX_TRAIL_LENGTH)%nat /\
  (3 * length (trailPositions w) <= MAX_TRAIL_LENGTH * 3)%nat.
Proof.
  intros Hreach. pose proof (inv_trail w (reachable_invariant w Hreach)) as Htrail.
  unfold MAX_TRAIL_LENGTH. lia.
Qed.

(** X4. Without a drag in progress the launch power reads 0, so the power
    bar and the "Power: n%" hint only show during a drag. *)
Theorem idle_power_is_zero (w : World) :
  reachable w -> isDragging w = false ->
  launchPower w = 0 /\ gtb (launchPower w) 0 = false.
Proof.
  intros Hreach Hidle.
  rewrite (play_power_idle w (reachable_play_invariant w Hreach) Hidle).
  split; reflexivity.
Qed.

(** X5. The launch power is NaN or lies between 0 and 30, the value the
    power bar shows as 100%. *)
Theorem power_within_bar (w : World) :
  reachable w ->
  is_nan (launchPower w) = true \/
  ((0 <=? launchPower w) = true /\ (launchPower w <=? 30) = true).
Proof.
  intros Hreach. exact (play_power_range w (reachable_play_invariant w Hreach)).
Qed.

(** X6. Whenever the game view is open, the level shown in its header
    exists, and the planets and the goal in the scene are the ones of that
    level; while the player is aiming, the craft rests at that level's
    start with an empty trail. *)
Theorem scene_matches_level (w : World) :
  reachable w -> showMenu w = false -> showLevelSelect w = false ->
  exists level,
    LEVELS !! currentLevel w = Some level /\
    planets w = map createPlanet (level_planets level) /\
    goal w = Some (createGoal (p_x (level_goal level)) (p_y (level_goal level))) /\
    (gameState w = aiming -> fresh_run level w).
Proof.
  intros Hreach Hmenu Hselect.
  destruct (play_synced w (reachable_play_invariant w Hreach) Hmenu Hselect)
    as (level & Hlevel & [Hplanets Hgoal] & Hfresh).
  exists level. split; [exact Hlevel|]. split; [exact Hplanets|].
  split; [exact Hgoal|exact Hfresh].
Qed.

(** X7. A flying craft is always inside the play area and outside the
    goal's capture disc: the frame that takes it out of either ends the
    flight at once, and every level starts it inside. *)
Theorem flying_craft_inside (w : World) :
  reachable w -> gameState w = flying ->
  exists pos,
    spacecraft w = Some pos /\
    out_of_bounds pos = false /\ goal_reached (goal w) pos = false /\
    isDragging w = false.
Proof.
  intros Hreach Hfly.
  destruct (play_inside w (reachable_play_invariant w Hreach) Hfly)
    as (pos & Hcraft & Hbounds & Hgoal).
  exists pos. split; [exact Hcraft|]. split; [exact Hbounds|].
  split; [exact Hgoal|].
  pose proof (inv_drag w (reachable_invariant w Hreach)) as Hdrag.
  destruct (isDragging w); [|reflexivity].
  specialize (Hdrag eq_refl). congruence.
Qed.

(** X8. The attempts counter is never negative. *)
Theorem attempts_never_negative (w : World) :
  reachable w -> (0 <= attempts w)%Z.
Proof.
  intros Hreach. exact (play_attempts w (reachable_play_invariant w Hreach)).
Qed.

(** X9. In the game view, the "Level Complete!" dialog only shows for a
    level that is recorded in [completedLevels]. *)
Theorem success_is_recorded (w : World) :
  reachable w -> showMenu w = false -> showLevelSelect w = false ->
  gameState w = success -> currentLevel w ∈ completedLevels w.
Proof.
  intros Hreach. exact (play_success w (reachable_play_invariant w Hreach)).
Qed.

End FurtherProperties.

(** ** Menu actions *)

Lemma levelEffect_open (w : World) :
  showMenu w = false -> showLevelSelect w = false ->
  levelEffect w = initLevel (currentLevel w) (write_effectTracksLevelSelect true w).
Proof.
  intros Hmenu Hselect. unfold levelEffect. world_simpl.
  by rewrite Hmenu, Hselect.
Qed.

Lemma levelEffect_closed (w : World) :
  (showMenu w || showLevelSelect w) = true ->
  levelEffect w = write_effectTracksLevelSelect (negb (showMenu w)) w.
Proof.
  intros Hopen. unfold levelEffect. world_simpl.
  by destruct (showMenu w), (showLevelSelect w).
Qed.

(** What [initLevel] leaves alone. *)
Lemma initLevel_keeps (i : nat) (w : World) :
  showMenu (initLevel i w) = showMenu w /\
  showLevelSelect (initLevel i w) = showLevelSelect w /\
  currentLevel (initLevel i w) = currentLevel w /\
  completedLevels (initLevel i w) = completedLevels w /\
  effectTracksLevelSelect (initLevel i w) = effectTracksLevelSelect w /\
  same_aim w (initLevel i w).
Proof. unfold initLevel. by destruct (LEVELS !! i). Qed.

(** X10. "Start Game", pressed in the main menu, opens the game view on
    the fresh run of the first level with the attempts counter at 0,
    whatever level was current before; the completed levels and the aim
    signals are kept. *)
Theorem startGame_from_menu (w : World) (first : Level) :
  LEVELS !! 0%nat = Some first ->
  showMenu w = true -> showLevelSelect w = false ->
  showMenu (startGame w) = false /\
  showLevelSelect (startGame w) = false /\
  currentLevel (startGame w) = 0%nat /\
  attempts (startGame w) = 0%Z /\
  fresh_run first (startGame w) /\
  completedLevels (startGame w) = completedLevels w /\
  same_aim w (startGame w).
Proof.
  intros Hfirst Hmenu Hselect. unfold startGame, setShowMenu.
  case_decide as Hshown; [congruence|]. clear Hshown.
  rewrite levelEffect_open by done. world_simpl.
  destruct (initLevel_keeps (currentLevel w)
              (write_effectTracksLevelSelect true (write_showMenu false w)))
    as (Hmenu1 & Hselect1 & Hlevel1 & Hdone1 & _ & Haim1).
  unfold same_aim in Haim1. world_simpl. rewrite Hselect in Hselect1.
  unfold setCurrentLevel. case_decide as Hsame.
  - rewrite Hlevel1 in Hsame. rewrite Hsame.
    rewrite (initLevel_Some 0 first) by done.
    unfold fresh_run, same_aim. simpl. rewrite Hselect. done.
  - rewrite levelEffect_open by done. world_simpl.
    rewrite (initLevel_Some 0 first) by done.
    unfold fresh_run, same_aim. world_simpl.
    rewrite Hmenu1, Hselect1, Hdone1. destruct Haim1 as (-> & -> & ->). done.
Qed.

Section MenuRoundTrip.
Context `{MathLib}.

(** X11. Opening the level grid from the main menu and going back is not
    a no-op: "Back to Menu" closes the grid before it reopens the menu,
    and in between the level effect sees both closed and initialises the
    current level.  The menu is back, over a fresh run, and the attempts
    counter has gone up by one. *)
Theorem level_grid_round_trip (w : World) :
  reachable w -> showMenu w = true -> showLevelSelect w = false ->
  exists level,
    LEVELS !! currentLevel w = Some level /\
    showMenu (backToMenu (openLevelSelect w)) = true /\
    showLevelSelect (backToMenu (openLevelSelect w)) = false /\
    currentLevel (backToMenu (openLevelSelect w)) = currentLevel w /\
    fresh_run level (backToMenu (openLevelSelect w)) /\
    attempts (backToMenu (openLevelSelect w)) = (attempts w + 1)%Z /\
    completedLevels (backToMenu (openLevelSelect w)) = completedLevels w.
Proof.
  intros Hreach Hmenu Hselect.
  pose proof (reachable_invariant w Hreach) as Hinv.
  pose proof (inv_tracks w Hinv) as Htracks. rewrite Hmenu in Htracks.
  cbn [negb] in Htracks.
  destruct (lookup_lt_is_Some_2 LEVELS (currentLevel w) (inv_level w Hinv))
    as [level Hlevel].
  exists level. split; [exact Hlevel|].
  assert (Hopen : openLevelSelect w =
    write_effectTracksLevelSelect true
      (write_showMenu false (write_showLevelSelect true w))).
  { unfold openLevelSelect, setShowLevelSelect. rewrite Htracks.
    case_decide; [congruence|]. unfold setShowMenu. world_simpl.
    rewrite Hmenu. case_decide; [done|]. by rewrite levelEffect_closed. }
  rewrite Hopen. unfold backToMenu, setShowLevelSelect. world_simpl.
  case_decide; [done|]. rewrite levelEffect_open by done. world_simpl.
  rewrite (initLevel_Some _ level) by done. world_simpl.
  unfold setShowMenu. world_simpl. case_decide; [done|].
  rewrite levelEffect_closed by done.
  unfold fresh_run. simpl. done.
Qed.

End MenuRoundTrip.

(** X12. "Complete!" on the last level only returns to the menu: the phase
    goes back to aiming and the menu opens, while the level index, the
    attempts counter, the completed levels and the finished Run (craft,
    velocity, trail, planets, goal) stay as they are. *)
Theorem nextLevel_at_last_level (w : World) :
  currentLevel w = (length LEVELS - 1)%nat ->
  showMenu (nextLevel w) = true /\
  gameState (nextLevel w) = aiming /\
  currentLevel (nextLevel w) = currentLevel w /\
  attempts (nextLevel w) = attempts w /\
  completedLevels (nextLevel w) = completedLevels w /\
  spacecraft (nextLevel w) = spacecraft w /\
  spacecraftVelocity (nextLevel w) = spacecraftVelocity w /\
  trailPositions (nextLevel w) = trailPositions w /\
  planets (nextLevel w) = planets w /\
  goal (nextLevel w) = goal w.
Proof.
  intros Hlast. unfold nextLevel. rewrite Hlast.
  rewrite Nat.ltb_irrefl. unfold setShowMenu. world_simpl.
  case_decide as Hmenu; [done|].
  by rewrite levelEffect_closed.
Qed.

(** X13. Retry pressed while the menu or the level grid covers the game
    (the buttons of the success and failure dialogs stay available there)
    only bumps the retry counter: the level effect re-runs but does not
    initialise, so the phase, the attempts counter and the Run stay as
    they are. *)
Theorem retry_behind_menu_keeps_run (w : World) :
  (showMenu w || showLevelSelect w) = true ->
  retryCounter (retryLevel w) = (retryCounter w + 1)%Z /\
  gameState (retryLevel w) = gameState w /\
  attempts (retryLevel w) = attempts w /\
  spacecraft (retryLevel w) = spacecraft w /\
  spacecraftVelocity (retryLevel w) = spacecraftVelocity w /\
  trailPositions (retryLevel w) = trailPositions w /\
  planets (retryLevel w) = planets w /\
  goal (retryLevel w) = goal w.
Proof.
  intros Hcovered. unfold retryLevel, setRetryCounter.
  case_decide; [lia|]. by rewrite levelEffect_closed.
Qed.

(** X14. A frame only ever touches the Run, the phase and the completed
    levels: the level index, the attempts and retry counters, the menu
    flags, the aim signals and the scene's planets and goal are never
    written by [animate]. *)
Theorem frame_leaves_signals (w : World) :
  currentLevel (animate w) = currentLevel w /\
  attempts (animate w) = attempts w /\
  retryCounter (animate w) = retryCounter w /\
  showMenu (animate w) = showMenu w /\
  showLevelSelect (animate w) = showLevelSelect w /\
  isDragging (animate w) = isDragging w /\
  launchPower (animate w) = launchPower w /\
  launchAngle (animate w) = launchAngle w /\
  planets (animate w) = planets w /\
  goal (animate w) = goal w.
Proof.
  unfold animate, animate_trace.
  destruct (gameState w); try done.
  destruct (spacecraft w) as [pos|]; [|done].
  destruct (gravity_loop _ _ _ _) as [acceleration|]; [|done].
  unfold check_goal, check_bounds, integrate. world_simpl.
  destruct (goal_reached _ _); cbn [fst snd]; world_simpl;
    destruct (out_of_bounds _); done.
Qed.

(** ** The trajectory preview *)

Lemma predict_loop_more planets goal (m : nat) : forall (n : nat) pos vel positions,
  predict_loop planets goal n pos vel positions `prefix_of`
  predict_loop planets goal (n + m) pos vel positions.
Proof.
  induction n as [|n IH]; intros pos vel positions.
  - rewrite (predict_loop_app planets goal m). simpl. by apply prefix_app_r.
  - simpl. destruct (gravity_loop _ _ _ _); [|done].
    destruct (predict_goal_reached _ _); [done|].
    destruct (predict_out_of_bounds _); [done|]. apply IH.
Qed.

(** X15. Asking the predictor for more steps only extends the path: the
    positions for [n] steps are the first positions for [n + m] steps. *)
Theorem predictTrajectory_prefix planets goal startPos velocity (n m : nat) :
  predictTrajectory planets goal startPos velocity n `prefix_of`
  predictTrajectory planets goal startPos velocity (n + m).
Proof.
  unfold predictTrajectory. apply predict_loop_more.
Qed.

Lemma predict_loop_clear planets goal (steps : nat) : forall pos vel positions,
  exists new,
    predict_loop planets goal steps pos vel positions = positions ++ new /\
    (new <> [] -> predict_passes planets goal pos) /\
    (forall (i : nat) p, new !! i = Some p -> (S i < length new)%nat ->
       predict_passes planets goal p /\ predict_out_of_bounds p = false).
Proof.
  induction steps as [|steps IH]; intros pos vel positions; simpl.
  { exists []. rewrite app_nil_r. split; [done|]. split; [done|].
    intros i p Hp. by rewrite lookup_nil in Hp. }
  destruct (gravity_loop predict_hit_distance pos THREE.zero planets)
    as [acceleration|] eqn:Hloop.
  2: { exists []. rewrite app_nil_r. split; [done|]. split; [done|].
       intros i p Hp. by rewrite lookup_nil in Hp. }
  destruct (predict_goal_reached goal pos) eqn:Hgoal.
  { exists []. rewrite app_nil_r. split; [done|]. split; [done|].
    intros i p Hp. by rewrite lookup_nil in Hp. }
  assert (Hpos : predict_passes planets goal pos).
  { split; [by rewrite Hloop|done]. }
  set (vel' := THREE.add vel (THREE.multiplyScalar acceleration predict_dt)).
  set (pos' := THREE.add pos (THREE.multiplyScalar (THREE.clone vel') predict_dt)).
  destruct (predict_out_of_bounds pos') eqn:Hout.
  { exists [THREE.clone pos']. split; [done|]. split; [done|].
    intros i p _ Hi. simpl in Hi. lia. }
  destruct (IH pos' vel' (positions ++ [THREE.clone pos']))
    as (new & Hnew & Hfirst & Hrest).
  exists (THREE.clone pos' :: new). split.
  { rewrite Hnew. by rewrite <- app_assoc. }
  split; [done|]. intros [|i] p Hp Hi; simpl in Hp, Hi.
  - injection Hp as <-. unfold THREE.clone. split; [|done].
    apply Hfirst. intros ->. simpl in Hi. lia.
  - apply (Hrest i p Hp). lia.
Qed.

(** X16. Every predicted position but the last is one the predictor went
    on from: it lies inside the 60 x 50 box, it is not within the stop
    radius of the goal, and no planet is hit there.  Only the last point
    of the preview can be outside the box, in a planet or at the goal. *)
Theorem predicted_path_clear planets goal startPos velocity (steps i : nat) p :
  predictTrajectory planets goal startPos velocity steps !! i = Some p ->
  (S i < length (predictTrajectory planets goal startPos velocity steps))%nat ->
  predict_out_of_bounds p = false /\
  predict_goal_reached goal p = false /\
  is_Some (gravity_loop predict_hit_distance p THREE.zero planets).
Proof.
  unfold predictTrajectory.
  destruct (predict_loop_clear planets goal steps
              (THREE.clone startPos) (THREE.clone velocity) [])
    as (new & -> & _ & Hrest).
  simpl. intros Hp Hi. destruct (Hrest i p Hp Hi) as [[Hloop Hgoal] Hout].
  done.
Qed.

(** ** The preview against the flight *)

Section Comparisons.
#[local] Open Scope Z_scope.

Ltac fold_Pos_compare :=
  repeat match goal with
  | |- context [Pos.compare_cont Eq ?a ?b] =>
      change (Pos.compare_cont Eq a b) with (Pos.compare a b)
  end.

(** The order on finite magnitudes: on the exponent, then the mantissa. *)
Lemma magnitude_lt_trans (m1 m2 m3 : positive) (e1 e2 e3 : Z) :
  match Z.compare e1 e2 with
  | Lt => Lt | Gt => Gt | Eq => Pos.compare_cont Eq m1 m2
  end = Lt ->
  match Z.compare e2 e3 with
  | Lt => Lt | Gt => Gt | Eq => Pos.compare_cont Eq m2 m3
  end = Lt ->
  match Z.compare e1 e3 with
  | Lt => Lt | Gt => Gt | Eq => Pos.compare_cont Eq m1 m3
  end = Lt.
Proof.
  fold_Pos_compare.
  destruct (Z.compare_spec e1 e2) as [H12|H12|H12];
    destruct (Z.compare_spec e2 e3) as [H23|H23|H23];
    destruct (Z.compare_spec e1 e3) as [H13|H13|H13];
    rewrite ?Pos.compare_lt_iff; try done; lia.
Qed.

Lemma magnitude_gt_trans (m1 m2 m3 : positive) (e1 e2 e3 : Z) :
  match Z.compare e1 e2 with
  | Lt => Gt | Gt => Lt | Eq => CompOpp (Pos.compare_cont Eq m1 m2)
  end = Lt ->
  match Z.compare e2 e3 with
  | Lt => Gt | Gt => Lt | Eq => CompOpp (Pos.compare_cont Eq m2 m3)
  end = Lt ->
  match Z.compare e1 e3 with
  | Lt => Gt | Gt => Lt | Eq => CompOpp (Pos.compare_cont Eq m1 m3)
  end = Lt.
Proof.
  fold_Pos_compare.
  destruct (Z.compare_spec e1 e2) as [H12|H12|H12];
    destruct (Z.compare_spec e2 e3) as [H23|H23|H23];
    destruct (Z.compare_spec e1 e3) as [H13|H13|H13];
    try done; try lia.
  destruct (Pos.compare_spec m1 m2), (Pos.compare_spec m2 m3),
    (Pos.compare_spec m1 m3); simpl; try done; lia.
Qed.

Lemma SFltb_trans (a b c : spec_float) :
  SFltb a b = true -> SFltb b c = true -> SFltb a c = true.
Proof.
  unfold SFltb.
  destruct a as [sa|sa| |sa ma ea], b as [sb|sb| |sb mb eb],
    c as [sc|sc| |sc mc ec]; simpl; try done;
    try (destruct sa; done); try (destruct sb; done); try (destruct sc; done);
    try (destruct sa, sb; done); try (destruct sb, sc; done);
    try (destruct sa, sc; done); try (destruct sa, sb, sc; done).
  destruct sa, sb, sc; try done.
  - (* all negative *)
    intros Hab Hbc.
    rewrite (magnitude_gt_trans ma mb mc ea eb ec); [done| |].
    + by destruct (match Z.compare ea eb with
                   | Lt => Gt | Gt => Lt
                   | Eq => CompOpp (Pos.compare_cont Eq ma mb) end).
    + by destruct (match Z.compare eb ec with
                   | Lt => Gt | Gt => Lt
                   | Eq => CompOpp (Pos.compare_cont Eq mb mc) end).
  - (* all positive *)
    intros Hab Hbc.
    rewrite (magnitude_lt_trans ma mb mc ea eb ec); [done| |].
    + by destruct (match Z.compare ea eb with
                   | Lt => Lt | Gt => Gt | Eq => Pos.compare_cont Eq ma mb end).
    + by destruct (match Z.compare eb ec with
                   | Lt => Lt | Gt => Gt | Eq => Pos.compare_cont Eq mb mc end).
Qed.

End Comparisons.

Lemma ltb_trans (a b c : float) :
  (a <? b) = true -> (b <? c) = true -> (a <? c) = true.
Proof. rewrite !ltb_spec. apply SFltb_trans. Qed.

(** X17. Wherever the flight would capture the goal, the preview stops
    too: the capture radius [GOAL_RADIUS * 1.2] lies inside the preview's
    stop radius [GOAL_RADIUS * 1.5]. *)
Theorem capture_within_preview_stop (goal : option Vector3) (pos : Vector3) :
  goal_reached goal pos = true -> predict_goal_reached goal pos = true.
Proof.
  unfold goal_reached, predict_goal_reached. destruct goal as [g|]; [|done].
  intros Hnear. apply (ltb_trans _ _ _ Hnear). vm_compute. reflexivity.
Qed.

(** X18. The preview's box contains the play area: a position where the
    preview stops for leaving its 60 x 50 box is one where the flight has
    already failed for leaving the 55 x 45 play area. *)
Theorem preview_box_contains_play_area (pos : Vector3) :
  predict_out_of_bounds pos = true -> out_of_bounds pos = true.
Proof.
  unfold predict_out_of_bounds, out_of_bounds, gtb.
  intros [Hx|Hy]%orb_true_iff; apply orb_true_iff; [left|right].
  - refine (ltb_trans _ _ _ _ Hx). vm_compute. reflexivity.
  - refine (ltb_trans _ _ _ _ Hy). vm_compute. reflexivity.
Qed.

(** Every planet of the catalogue has a crash distance above its radius. *)
Lemma catalogue_crash_distance (level : Level) (planet : Planet) :
  level ∈ LEVELS -> planet ∈ map createPlanet (level_planets level) ->
  (predict_hit_distance planet <? crash_hit_distance planet) = true.
Proof.
  unfold LEVELS. rewrite !elem_of_cons, elem_of_nil.
  intros [->|[->|[->|[->|[->|[->|[->|[]]]]]]]]; simpl;
    rewrite ?elem_of_cons, elem_of_nil; intros Hp;
    repeat (destruct Hp as [->|Hp]; [vm_compute; reflexivity|]); done.
Qed.

Lemma gravity_loop_hit (planets : list Planet) :
  (forall planet, planet ∈ planets ->
     (predict_hit_distance planet <? crash_hit_distance planet) = true) ->
  forall pos acceleration,
  gravity_loop predict_hit_distance pos acceleration planets = None ->
  gravity_loop crash_hit_distance pos acceleration planets = None.
Proof.
  induction planets as [|planet rest IH]; intros Hwider pos acceleration; [done|].
  simpl.
  destruct (_ <? predict_hit_distance planet) eqn:Hhit.
  - intros _. by rewrite (ltb_trans _ _ _ Hhit (Hwider planet (list_elem_of_here _ _))).
  - destruct (_ <? crash_hit_distance planet); [done|].
    apply IH. intros p Hp. apply Hwider. by apply list_elem_of_further.
Qed.

(** X19. In every level of the catalogue, a position where the preview
    ends in a planet is one where the flight crashes: the flight's hit
    distance [radius + 0.5] is above the preview's [radius]. *)
Theorem predicted_hit_is_crash (level : Level) (pos acceleration : Vector3) :
  level ∈ LEVELS ->
  gravity_loop predict_hit_distance pos acceleration
    (map createPlanet (level_planets level)) = None ->
  gravity_loop crash_hit_distance pos acceleration
    (map createPlanet (level_planets level)) = None.
Proof.
  intros Hlevel. apply gravity_loop_hit.
  intros planet. by apply catalogue_crash_distance.
Qed.

(** ** The softened force *)

(** A step of the gravity loop, with the divisor of the force named. *)
Lemma gravity_loop_step hit_distance pos acceleration planet rest :
  gravity_loop hit_distance pos acceleration (planet :: rest) =
  let direction := THREE.sub (THREE.clone (position planet)) pos in
  if THREE.length direction <? hit_distance planet then None
  else
    gravity_loop hit_distance pos
      (THREE.add acceleration
         (THREE.multiplyScalar (THREE.normalize direction)
            (G * mass planet / (softDistance pos planet * softDistance pos planet))))
      rest.
Proof. reflexivity. Qed.

Lemma length_nonneg (v : Vector3) : nan_or nonneg (Prim2SF (THREE.length v)).
Proof.
  unfold THREE.length. rewrite sqrt_spec. apply SFsqrt_nonneg.
  rewrite add_spec. apply SFadd_nonneg; [|apply square_nonneg].
  rewrite add_spec. apply SFadd_nonneg; apply square_nonneg.
Qed.

(** X20. The force on the craft is never a division by zero: whatever the
    position of the craft and the planet, the divisor
    [softDistance * softDistance] of the gravity loop is NaN or at least
    64. *)
Theorem softened_divisor_at_least_64 (pos : Vector3) (planet : Planet) :
  is_nan (softDistance pos planet * softDistance pos planet) = true \/
  (64 <=? softDistance pos planet * softDistance pos planet) = true.
Proof.
  assert (Hsoft : nan_or (big 3) (Prim2SF (softDistance pos planet))).
  { unfold softDistance. rewrite add_spec.
    apply SFadd_big_r; [done|apply length_nonneg|].
    right. vm_compute. split; [discriminate|exact I]. }
  destruct Hsoft as [Hnan|[Hmag Hpos]].
  - left. apply is_nan_spec. rewrite mul_spec, Hnan. reflexivity.
  - right. rewrite leb_spec, mul_spec.
    change (Prim2SF 64) with (S754_finite false 4503599627370496 (-46)).
    apply big_leb_64.
    + rewrite <- mul_spec. apply Prim2SF_valid.
    + by apply (SFmul_self_big 3).
Qed.

(** X23. With no planets in the scene (as on "First Launch") a frame of a
    flying craft leaves the velocity as it is and moves the craft by
    [velocity * dt]: the flight is a straight line.  (A velocity component
    that is the negative zero comes out as the positive zero, which is why
    the statement leaves that value out.) *)
Theorem coasting_without_planets (w : World) (pos : Vector3) :
  gameState w = flying -> spacecraft w = Some pos -> planets w = [] ->
  Prim2SF (THREE.x (spacecraftVelocity w)) <> S754_zero true ->
  Prim2SF (THREE.y (spacecraftVelocity w)) <> S754_zero true ->
  Prim2SF (THREE.z (spacecraftVelocity w)) <> S754_zero true ->
  spacecraftVelocity (animate w) = spacecraftVelocity w /\
  spacecraft (animate w) =
    Some (THREE.add pos (THREE.multiplyScalar (spacecraftVelocity w) flight_dt)).
Proof.
  intros Hfly Hcraft Hnone Hx Hy Hz. unfold animate, animate_trace.
  rewrite Hfly, Hcraft, Hnone. cbn [gravity_loop].
  unfold check_goal, check_bounds, integrate. world_simpl.
  assert (Hvel : THREE.add (spacecraftVelocity w)
                   (THREE.multiplyScalar THREE.zero flight_dt) =
                 spacecraftVelocity w).
  { destruct (spacecraftVelocity w) as [vx vy vz]. unfold THREE.add. simpl in *.
    change (0 * flight_dt) with 0. by rewrite !add_zero_r. }
  rewrite Hvel. unfold THREE.clone.
  destruct (goal_reached _ _); cbn [fst snd]; world_simpl;
    destruct (out_of_bounds _); done.
Qed.

(** ** Line buffers *)

Section Buffers.
#[local] Open Scope nat_scope.

Lemma set_vertex_length (i : nat) (vx vy : float) (array : list float) :
  length (set_vertex i vx vy array) = length array.
Proof. unfold set_vertex, Float32Array_set. by rewrite !length_insert. Qed.

Lemma set_vertex_other (i j : nat) (vx vy : float) (array : list float) :
  j < i * 3 \/ i * 3 + 3 <= j ->
  set_vertex i vx vy array !! j = array !! j.
Proof.
  intros Hj. unfold set_vertex, Float32Array_set.
  rewrite !list_lookup_insert_ne by lia. done.
Qed.

Lemma set_vertex_at (i : nat) (vx vy : float) (array : list float) :
  i * 3 + 3 <= length array ->
  set_vertex i vx vy array !! (i * 3) = Some (Math_fround vx) /\
  set_vertex i vx vy array !! (i * 3 + 1) = Some (Math_fround vy) /\
  set_vertex i vx vy array !! (i * 3 + 2) = Some 0%float.
Proof.
  intros Hi. unfold set_vertex, Float32Array_set. split; [|split].
  - rewrite !list_lookup_insert_ne by lia.
    apply list_lookup_insert_eq. lia.
  - rewrite list_lookup_insert_ne by lia.
    apply list_lookup_insert_eq. rewrite length_insert. lia.
  - change (Some 0%float) with (Some (Math_fround 0)).
    apply list_lookup_insert_eq. rewrite !length_insert. lia.
Qed.

(** A loop that writes vertex [i] in round [i] and nothing else. *)
Section VertexLoop.
Variable body : list float -> nat -> list float.
Hypothesis body_length : forall array i, length (body array i) = length array.
Hypothesis body_other : forall array i j,
  j < i * 3 \/ i * 3 + 3 <= j -> body array i !! j = array !! j.

Lemma vertex_loop_length (n : nat) (array : list float) :
  length (foldl body array (seq 0 n)) = length array.
Proof.
  induction n as [|n IH]; [done|].
  by rewrite seq_S, foldl_snoc, body_length.
Qed.

Lemma vertex_loop_beyond (n j : nat) (array : list float) :
  n * 3 <= j -> foldl body array (seq 0 n) !! j = array !! j.
Proof.
  induction n as [|n IH]; [done|]. intros Hj.
  rewrite seq_S, foldl_snoc, body_other by (simpl; lia). apply IH. lia.
Qed.

Lemma vertex_loop_at (n i j : nat) (array : list float) :
  i < n -> i * 3 <= j < i * 3 + 3 ->
  foldl body array (seq 0 n) !! j = body (foldl body array (seq 0 i)) i !! j.
Proof.
  induction n as [|n IH]; [lia|]. intros Hi Hj.
  rewrite seq_S, foldl_snoc. simpl.
  destruct (decide (i = n)) as [->|Hne]; [done|].
  rewrite body_other by lia. apply IH; [lia|done].
Qed.

End VertexLoop.

Lemma fill_trajectory_vertex_length positions array i :
  length (fill_trajectory_vertex positions array i) = length array.
Proof.
  unfold fill_trajectory_vertex.
  destruct (positions !! i); apply set_vertex_length.
Qed.

Lemma fill_trajectory_vertex_other positions array i j :
  j < i * 3 \/ i * 3 + 3 <= j ->
  fill_trajectory_vertex positions array i !! j = array !! j.
Proof.
  intros Hj. unfold fill_trajectory_vertex.
  destruct (positions !! i); by apply set_vertex_other.
Qed.

Lemma fill_trail_vertex_length trail array i :
  length (fill_trail_vertex trail array i) = length array.
Proof.
  unfold fill_trail_vertex. destruct (trail !! i); [apply set_vertex_length|done].
Qed.

Lemma fill_trail_vertex_other trail array i j :
  j < i * 3 \/ i * 3 + 3 <= j ->
  fill_trail_vertex trail array i !! j = array !! j.
Proof.
  intros Hj. unfold fill_trail_vertex.
  destruct (trail !! i); [by apply set_vertex_other|done].
Qed.

(** The vertex a loop leaves at index [i] when its body sets it there. *)
Lemma vertex_loop_set body (n i : nat) (vx vy : float) (array : list float) :
  (forall array i, length (body array i) = length array) ->
  (forall array i j,
     j < i * 3 \/ i * 3 + 3 <= j -> body array i !! j = array !! j) ->
  (forall array, body array i = set_vertex i vx vy array) ->
  i < n -> n * 3 <= length array ->
  foldl body array (seq 0 n) !! (i * 3) = Some (Math_fround vx) /\
  foldl body array (seq 0 n) !! (i * 3 + 1) = Some (Math_fround vy) /\
  foldl body array (seq 0 n) !! (i * 3 + 2) = Some 0%float.
Proof.
  intros Hlength Hother Hset Hi Hn.
  rewrite !(vertex_loop_at body Hother n i) by lia.
  rewrite Hset. apply set_vertex_at.
  rewrite (vertex_loop_length body Hlength). lia.
Qed.

End Buffers.

(** X21. What [updateTrajectoryLine] leaves in the preview's buffer, for
    a buffer of at least 300 floats (the source allocates 900) with any
    content: the draw range is the number of predicted positions, at most
    100; every vertex inside it is the predicted position, rounded to
    binary32, with z = 0; every vertex from there up to the hundredth is
    zero, so nothing of an earlier, longer preview is left; what lies past
    the first 300 floats is never touched. *)
Theorem trajectory_buffer_filled planets goal startPos velocity
    (positionArray : list float) :
  (300 <= length positionArray)%nat ->
  snd (updateTrajectoryLine_buffer planets goal startPos velocity positionArray)
    = length (updateTrajectoryLine planets goal startPos velocity) /\
  (snd (updateTrajectoryLine_buffer planets goal startPos velocity positionArray)
     <= 100)%nat /\
  length (fst (updateTrajectoryLine_buffer planets goal startPos velocity positionArray))
    = length positionArray /\
  (forall (i : nat) p,
     updateTrajectoryLine planets goal startPos velocity !! i = Some p ->
     fst (updateTrajectoryLine_buffer planets goal startPos velocity positionArray)
       !! (i * 3)%nat = Some (Math_fround (THREE.x p)) /\
     fst (updateTrajectoryLine_buffer planets goal startPos velocity positionArray)
       !! (i * 3 + 1)%nat = Some (Math_fround (THREE.y p)) /\
     fst (updateTrajectoryLine_buffer planets goal startPos velocity positionArray)
       !! (i * 3 + 2)%nat = Some 0) /\
  (forall i : nat,
     (length (updateTrajectoryLine planets goal startPos velocity) <= i < 100)%nat ->
     fst (updateTrajectoryLine_buffer planets goal startPos velocity positionArray)
       !! (i * 3)%nat = Some 0 /\
     fst (updateTrajectoryLine_buffer planets goal startPos velocity positionArray)
       !! (i * 3 + 1)%nat = Some 0 /\
     fst (updateTrajectoryLine_buffer planets goal startPos velocity positionArray)
       !! (i * 3 + 2)%nat = Some 0) /\
  (forall j : nat, (300 <= j)%nat ->
     fst (updateTrajectoryLine_buffer planets goal startPos velocity positionArray)
       !! j = positionArray !! j).
Proof.
  intros Hsize. unfold updateTrajectoryLine_buffer, updateTrajectoryLine.
  cbn [fst snd].
  set (positions := predictTrajectory planets goal startPos velocity 100).
  assert (Hcount : (length positions <= 100)%nat)
    by apply predict_loop_length.
  unfold fill_trajectory.
  split; [done|]. split; [done|]. split; [|split; [|split]].
  - apply vertex_loop_length, fill_trajectory_vertex_length.
  - intros i p Hp.
    apply (vertex_loop_set _ 100 i (THREE.x p) (THREE.y p));
      [apply fill_trajectory_vertex_length|apply fill_trajectory_vertex_other| | |lia].
    + intros array. unfold fill_trajectory_vertex. by rewrite Hp.
    + apply lookup_lt_Some in Hp. lia.
  - intros i [Hpast Hi].
    change (Some 0) with (Some (Math_fround 0)) at 1 2.
    apply (vertex_loop_set _ 100 i 0 0);
      [apply fill_trajectory_vertex_length|apply fill_trajectory_vertex_other| |done|lia].
    intros array. unfold fill_trajectory_vertex.
    by rewrite (lookup_ge_None_2 positions i Hpast).
  - intros j Hj.
    apply vertex_loop_beyond; [apply fill_trajectory_vertex_other|lia].
Qed.

Section TrailBuffer.
Context `{MathLib}.

(** X22. What a frame leaves in the trail line's buffer, in any reachable
    world and for a buffer of [MAX_TRAIL_LENGTH * 3] floats or more: the
    draw range is the length of the trail; every vertex inside it is the
    trail position, rounded to binary32, with z = 0; and, unlike the
    preview's buffer, everything past the draw range is left as it was. *)
Theorem trail_buffer_filled (w : World) (trailArray : list float) :
  reachable w -> (MAX_TRAIL_LENGTH * 3 <= length trailArray)%nat ->
  snd (fill_trail (trailPositions w) trailArray) = length (trailPositions w) /\
  length (fst (fill_trail (trailPositions w) trailArray)) = length trailArray /\
  (forall (i : nat) p,
     trailPositions w !! i = Some p ->
     fst (fill_trail (trailPositions w) trailArray) !! (i * 3)%nat
       = Some (Math_fround (THREE.x p)) /\
     fst (fill_trail (trailPositions w) trailArray) !! (i * 3 + 1)%nat
       = Some (Math_fround (THREE.y p)) /\
     fst (fill_trail (trailPositions w) trailArray) !! (i * 3 + 2)%nat
       = Some 0) /\
  (forall j : nat,
     (length (trailPositions w) * 3 <= j)%nat ->
     fst (fill_trail (trailPositions w) trailArray) !! j = trailArray !! j).
Proof.
  intros Hreach Hsize.
  pose proof (inv_trail w (reachable_invariant w Hreach)) as Htrail.
  unfold fill_trail, MAX_TRAIL_LENGTH in *. cbn [fst snd].
  split; [done|]. split; [|split].
  - apply vertex_loop_length, fill_trail_vertex_length.
  - intros i p Hp.
    apply (vertex_loop_set _ 100 i (THREE.x p) (THREE.y p));
      [apply fill_trail_vertex_length|apply fill_trail_vertex_other| | |lia].
    + intros array. unfold fill_trail_vertex. by rewrite Hp.
    + apply lookup_lt_Some in Hp. lia.
  - intros j Hj.
    destruct (decide (100 * 3 <= j)%nat) as [Hfar|Hnear].
    { apply vertex_loop_beyond; [apply fill_trail_vertex_other|done]. }
    assert (Hi : (j `div` 3 < 100)%nat) by (apply Nat.Div0.div_lt_upper_bound; lia).
    pose proof (Nat.div_mod_eq j 3) as Hdiv.
    pose proof (Nat.mod_upper_bound j 3) as Hmod.
    rewrite (vertex_loop_at _ (fill_trail_vertex_other (trailPositions w))
               100 (j `div` 3) j) by lia.
    unfold fill_trail_vertex at 1.
    rewrite (lookup_ge_None_2 (trailPositions w) (j `div` 3)) by lia.
    apply vertex_loop_beyond; [apply fill_trail_vertex_other|lia].
Qed.

End TrailBuffer.

(** ** Further worked examples *)

Section MoreExamples.
#[local] Existing Instance axisMath.

Lemma captured_world_reachable : reachable captured_world.
Proof. apply reachable_frames, launched_world_reachable. Qed.

Lemma last_level_world_reachable : reachable last_level_world.
Proof.
  apply reachable_run; [apply reachable_init|].
  repeat constructor.
Qed.

(** During the pull of [aimed_world] the craft rests at the start of
    "First Launch". *)
Lemma drag_only_over_fresh_run_witness :
  gameState aimed_world = aiming /\
  exists level, level ∈ LEVELS /\ fresh_run level aimed_world.
Proof.
  apply (drag_only_over_fresh_run aimed_world aimed_world_reachable).
  vm_compute. reflexivity.
Defined.

(** One level completed out of seven. *)
Lemma completed_count_bounded_witness :
  (size (completedLevels captured_world) <= length LEVELS)%nat.
Proof.
  exact (proj2 (completed_count_bounded captured_world captured_world_reachable)).
Defined.

Lemma trail_within_capacity_witness :
  (length (trailPositions captured_world) <= MAX_TRAIL_LENGTH)%nat.
Proof.
  exact (proj1 (trail_within_capacity captured_world captured_world_reachable)).
Defined.

Lemma idle_power_is_zero_witness :
  launchPower launched_world = 0 /\ gtb (launchPower launched_world) 0 = false.
Proof.
  apply (idle_power_is_zero launched_world launched_world_reachable).
  vm_compute. reflexivity.
Defined.

Lemma power_within_bar_witness :
  is_nan (launchPower aimed_world) = true \/
  ((0 <=? launchPower aimed_world) = true /\
   (launchPower aimed_world <=? 30) = true).
Proof. exact (power_within_bar aimed_world aimed_world_reachable). Defined.

Lemma scene_matches_level_witness :
  exists level,
    LEVELS !! currentLevel last_level_world = Some level /\
    planets last_level_world = map createPlanet (level_planets level) /\
    goal last_level_world =
      Some (createGoal (p_x (level_goal level)) (p_y (level_goal level))) /\
    (gameState last_level_world = aiming -> fresh_run level last_level_world).
Proof.
  apply (scene_matches_level last_level_world last_level_world_reachable);
    vm_compute; reflexivity.
Defined.

Lemma flying_craft_inside_witness :
  exists pos,
    spacecraft approach_world = Some pos /\
    out_of_bounds pos = false /\
    goal_reached (goal approach_world) pos = false /\
    isDragging approach_world = false.
Proof.
  apply (flying_craft_inside approach_world approach_world_reachable).
  vm_compute. reflexivity.
Defined.

Lemma attempts_never_negative_witness : (0 <= attempts captured_world)%Z.
Proof. exact (attempts_never_negative captured_world captured_world_reachable). Defined.

Lemma success_is_recorded_witness :
  currentLevel captured_world ∈ completedLevels captured_world.
Proof.
  apply (success_is_recorded captured_world captured_world_reachable);
    vm_compute; reflexivity.
Defined.

(** "Start Game" from the menu that is showing once "Black Hole" has been
    left by the "Menu" button. *)
Lemma startGame_from_menu_witness :
  currentLevel (startGame (openMenu last_level_world)) = 0%nat /\
  attempts (startGame (openMenu last_level_world)) = 0%Z /\
  fresh_run (mkLevel (mkPoint2 (-20) 0) (mkPoint2 20 0) [])
    (startGame (openMenu last_level_world)).
Proof.
  destruct (startGame_from_menu (openMenu last_level_world)
              (mkLevel (mkPoint2 (-20) 0) (mkPoint2 20 0) []))
    as (_ & _ & Hlevel & Hattempts & Hfresh & _); [vm_compute; reflexivity..|].
  split; [exact Hlevel|]. split; [exact Hattempts|exact Hfresh].
Defined.

(** From the freshly mounted app: into the level grid and back counts one
    attempt. *)
Lemma level_grid_round_trip_witness :
  exists level,
    LEVELS !! currentLevel initialWorld = Some level /\
    showMenu (backToMenu (openLevelSelect initialWorld)) = true /\
    showLevelSelect (backToMenu (openLevelSelect initialWorld)) = false /\
    currentLevel (backToMenu (openLevelSelect initialWorld)) =
      currentLevel initialWorld /\
    fresh_run level (backToMenu (openLevelSelect initialWorld)) /\
    attempts (backToMenu (openLevelSelect initialWorld)) =
      (attempts initialWorld + 1)%Z /\
    completedLevels (backToMenu (openLevelSelect initialWorld)) =
      completedLevels initialWorld.
Proof.
  apply (level_grid_round_trip initialWorld (reachable_init (H := axisMath)));
    vm_compute; reflexivity.
Defined.

Lemma nextLevel_at_last_level_witness :
  showMenu (nextLevel last_level_world) = true /\
  gameState (nextLevel last_level_world) = aiming /\
  currentLevel (nextLevel last_level_world) = currentLevel last_level_world.
Proof.
  destruct (nextLevel_at_last_level last_level_world)
    as (Hmenu & Hphase & Hlevel & _); [vm_compute; reflexivity|].
  split; [exact Hmenu|]. split; [exact Hphase|exact Hlevel].
Defined.

(** The first point of the preview of [first_preview], 0.48 on from the
    start, is one the predictor went on from. *)
Lemma predicted_path_clear_witness :
  predict_out_of_bounds (THREE.mkVector3 (-19.52) 0 0) = false /\
  predict_goal_reached (Some (THREE.mkVector3 20 0 0))
    (THREE.mkVector3 (-19.52) 0 0) = false /\
  is_Some (gravity_loop predict_hit_distance (THREE.mkVector3 (-19.52) 0 0)
             THREE.zero []).
Proof.
  apply (predicted_path_clear [] (Some (THREE.mkVector3 20 0 0))
           (THREE.mkVector3 (-20) 0 0) (THREE.mkVector3 10 0 0) 100 0).
  - vm_compute. reflexivity.
  - apply Nat.ltb_lt. vm_compute. reflexivity.
Defined.

Lemma capture_within_preview_stop_witness :
  predict_goal_reached (Some (THREE.mkVector3 20 0 0)) (THREE.mkVector3 18 0 0)
    = true.
Proof.
  apply capture_within_preview_stop. vm_compute. reflexivity.
Defined.

Lemma preview_box_contains_play_area_witness :
  out_of_bounds (THREE.mkVector3 61 0 0) = true.
Proof.
  apply preview_box_contains_play_area. vm_compute. reflexivity.
Defined.

(** At the centre of the planet of "Gentle Curve". *)
Lemma predicted_hit_is_crash_witness :
  gravity_loop crash_hit_distance (THREE.mkVector3 0 (-12) 0) THREE.zero
    (map createPlanet
       (level_planets
          (mkLevel (mkPoint2 (-25) 0) (mkPoint2 25 0)
             [mkPlanetData 0 (-12) 400 2.5]))) = None.
Proof.
  apply predicted_hit_is_crash.
  - apply (list_elem_of_lookup_2 _ 1%nat). reflexivity.
  - vm_compute. reflexivity.
Defined.

(** The preview of [first_preview] drawn into a buffer full of ones: 76
    points, and the first vertex is the first predicted position in
    binary32. *)
Lemma trajectory_buffer_filled_witness :
  snd (updateTrajectoryLine_buffer [] (Some (THREE.mkVector3 20 0 0))
         (THREE.mkVector3 (-20) 0 0) (THREE.mkVector3 10 0 0) (replicate 900 1))
    = length first_preview /\
  fst (updateTrajectoryLine_buffer [] (Some (THREE.mkVector3 20 0 0))
         (THREE.mkVector3 (-20) 0 0) (THREE.mkVector3 10 0 0) (replicate 900 1))
    !! 0%nat = Some (Math_fround (-19.52)) /\
  fst (updateTrajectoryLine_buffer [] (Some (THREE.mkVector3 20 0 0))
         (THREE.mkVector3 (-20) 0 0) (THREE.mkVector3 10 0 0) (replicate 900 1))
    !! (99 * 3)%nat = Some 0.
Proof.
  destruct (trajectory_buffer_filled [] (Some (THREE.mkVector3 20 0 0))
              (THREE.mkVector3 (-20) 0 0) (THREE.mkVector3 10 0 0)
              (replicate 900 1))
    as (Hrange & _ & _ & Hdrawn & Hzero & _).
  { apply Nat.leb_le. vm_compute. reflexivity. }
  split; [exact Hrange|]. split.
  - apply (Hdrawn 0%nat (THREE.mkVector3 (-19.52) 0 0)). vm_compute. reflexivity.
  - apply (Hzero 99%nat). split; apply Nat.leb_le; vm_compute; reflexivity.
Defined.

Lemma trail_buffer_filled_witness :
  snd (fill_trail (trailPositions approach_world) (replicate 300 0))
    = length (trailPositions approach_world) /\
  length (fst (fill_trail (trailPositions approach_world) (replicate 300 0)))
    = 300%nat.
Proof.
  destruct (trail_buffer_filled approach_world (replicate 300 0)
              approach_world_reachable)
    as (Hrange & Hlength & _).
  { apply Nat.leb_le. vm_compute. reflexivity. }
  split; [exact Hrange|]. rewrite Hlength. vm_compute. reflexivity.
Defined.

Lemma retry_behind_menu_keeps_run_witness :
  gameState (retryLevel (openMenu captured_world)) = success /\
  attempts (retryLevel (openMenu captured_world)) =
    attempts (openMenu captured_world).
Proof.
  destruct (retry_behind_menu_keeps_run (openMenu captured_world))
    as (_ & Hphase & Hattempts & _); [vm_compute; reflexivity|].
  split; [|exact Hattempts]. rewrite Hphase. vm_compute. reflexivity.
Defined.

(** The first frame of the straight shot. *)
Lemma coasting_without_planets_witness :
  spacecraftVelocity (animate launched_world) = THREE.mkVector3 15 0 0 /\
  spacecraft (animate launched_world) = Some (THREE.mkVector3 (-19.76) 0 0).
Proof.
  destruct (coasting_without_planets launched_world (THREE.mkVector3 (-20) 0 0))
    as [Hvelocity Hcraft];
    [vm_compute; reflexivity|vm_compute; reflexivity|vm_compute; reflexivity|
     vm_compute; discriminate..|].
  split; [rewrite Hvelocity|rewrite Hcraft]; vm_compute; reflexivity.
Defined.

End MoreExamples.
